(** * Sun: an animated three.js scene (src/index.js)

    A shallow embedding of the scene construction, the per-frame [animate]
    tick, the resize listener and the surface fragment shader.

    Numbers.  The scene and its animation are modelled over the real
    numbers: decimal literals denote the rationals they spell, [+ - * /] are
    the field operations, [Math.sin] is the real sine and [Math.PI] is [PI].
    What is stated there is stated so that it survives the rounding of
    JavaScript numbers: an exact value or a strict bound that rounding moves
    is given up to rounding, or said to hold in real arithmetic.  The module
    [Binary64] embeds the parts of the construction that need no sine (the
    corona loop, the control points of a flare) in binary64 itself, where
    the values the program stores are computed exactly.

    Store.  Every JavaScript object lives at one place of the [App] record;
    the two references the program keeps to a flare line ([flares[i]] and the
    child of [sunGroup]) denote the same component, and so do [sunMat] and
    the material of [sunMesh]. *)

From Stdlib Require Import Reals Lra Lia List Sorted ZArith.
From Stdlib Require Floats.
Import ListNotations.

Open Scope R_scope.

(** ** JavaScript number primitives *)

Module JS.

(** Truncation toward zero, the integer quotient of [%]. *)
Definition trunc (x : R) : Z :=
  if Rle_dec 0 x then Int_part x else (- Int_part (- x))%Z.

(** [a % b] on numbers: the remainder has the sign of the dividend. *)
Definition rem (a b : R) : R := a - b * IZR (trunc (a / b)).

(** [a || d] on numbers: [0] is falsy. *)
Definition or_else (a d : R) : R := if Req_dec_T a 0 then d else a.

Definition Math_max (a b : R) : R := Rmax a b.
Definition Math_sin (x : R) : R := sin x.
Definition Math_PI : R := PI.

End JS.

(** ** The parts of three.js the program calls *)

Module THREE.

Record Vector3 := mkVector3 { x : R; y : R; z : R }.

Definition multiplyScalar (v : Vector3) (s : R) : Vector3 :=
  mkVector3 (x v * s) (y v * s) (z v * s).

Definition divideScalar (v : Vector3) (s : R) : Vector3 :=
  multiplyScalar v (1 / s).

Definition length (v : Vector3) : R :=
  sqrt (x v * x v + y v * y v + z v * z v).

(** [normalize() { return this.divideScalar( this.length() || 1 ) }] *)
Definition normalize (v : Vector3) : Vector3 :=
  divideScalar v (JS.or_else (length v) 1).

Definition setScalar (s : R) : Vector3 := mkVector3 s s s.

(** [new Color(hex).multiplyScalar(k)]: the hexadecimal colour and the scalar
    its channels have been multiplied by. *)
Record Color := mkColor { hex : Z; intensity : R }.

Definition Color_of_hex (h : Z) : Color := mkColor h 1.

Definition Color_multiplyScalar (c : Color) (k : R) : Color :=
  mkColor (hex c) (intensity c * k).

Inductive Side := FrontSide | BackSide | DoubleSide.
Inductive Blending := NormalBlending | AdditiveBlending.
Inductive MaterialType := ShaderMaterial | MeshBasicMaterial | LineBasicMaterial.

Record Material := mkMaterial {
  mtype : MaterialType;
  color : Color;
  wireframe : bool;
  transparent : bool;
  opacity : R;
  blending : Blending;
  side : Side;
  depthWrite : bool;
  colorWrite : bool
}.

(** The values three.js gives to the properties a constructor call leaves
    out. *)
Definition Material_default (t : MaterialType) : Material :=
  mkMaterial t (Color_of_hex 0xffffff) false false 1 NormalBlending FrontSide
             true true.

(** A point of a [CatmullRomCurve3]: [curve.getPoint(u)], kept as the control
    points of the curve and the parameter it is evaluated at. *)
Record CurvePoint := mkCurvePoint { control : list Vector3; param : R }.

(** [getPoints(divisions)]: [getPoint(d / divisions)] for
    [d = 0 .. divisions]. *)
Definition getPoints (curve : list Vector3) (divisions : nat)
  : list CurvePoint :=
  map (fun d => mkCurvePoint curve (INR d / INR divisions))
      (seq 0 (S divisions)).

Inductive Geometry :=
| IcosahedronGeometry (radius : R) (detail : nat)
| SphereGeometry (radius : R) (widthSegments heightSegments : nat)
| BufferGeometry (points : list CurvePoint).

Definition geometry_radius (g : Geometry) : option R :=
  match g with
  | IcosahedronGeometry r _ => Some r
  | SphereGeometry r _ _ => Some r
  | BufferGeometry _ => None
  end.

Definition geometry_points (g : Geometry) : list CurvePoint :=
  match g with
  | BufferGeometry ps => ps
  | _ => []
  end.

Inductive ObjectType := Mesh | Line.

(** [flareLine.userData = { phase, scale }] *)
Record UserData := mkUserData { phase : R; baseScale : R }.

Record Object3D := mkObject3D {
  otype : ObjectType;
  geometry : Geometry;
  material : Material;
  scale : Vector3;
  renderOrder : R;
  userData : option UserData
}.

Record PerspectiveCamera := mkCamera {
  fov : R;
  aspect : R;
  near : R;
  far : R;
  position_z : R;
  (** the aspect ratio the projection matrix was last computed from *)
  projection_aspect : R
}.

Definition updateProjectionMatrix (c : PerspectiveCamera) : PerspectiveCamera :=
  mkCamera (fov c) (aspect c) (near c) (far c) (position_z c) (aspect c).

Record WebGLRenderer := mkRenderer { width : R; height : R }.

Definition setSize (_ : WebGLRenderer) (w h : R) : WebGLRenderer :=
  mkRenderer w h.

End THREE.
Import THREE.

(** ** The surface fragment shader (GLSL, [fragmentShader]) *)

Module Shader.

Definition vec2 : Type := R * R.
Definition vec3 : Type := Vector3.
Record vec4 := mkVec4 { rgb : vec3; alpha : R }.

(** [v * s] and [v + s] with a scalar [s] act on every component. *)
Definition vec2_scale (v : vec2) (s : R) : vec2 := (fst v * s, snd v * s).
Definition vec2_add_scalar (v : vec2) (s : R) : vec2 := (fst v + s, snd v + s).

Definition dot (p q : vec2) : R := fst p * fst q + snd p * snd q.

(** [fract(x) = x - floor(x)] *)
Definition fract (x : R) : R := x - IZR (Int_part x).

Definition clamp (x lo hi : R) : R := Rmin (Rmax x lo) hi.

Definition smoothstep (edge0 edge1 x : R) : R :=
  let t := clamp ((x - edge0) / (edge1 - edge0)) 0 1 in
  t * t * (3 - 2 * t).

(** [mix(a, b, t) = a * (1 - t) + b * t], component by component. *)
Definition mix (a b : vec3) (t : R) : vec3 :=
  mkVector3 (x a * (1 - t) + x b * t)
            (y a * (1 - t) + y b * t)
            (z a * (1 - t) + z b * t).

Definition noise (p : vec2) : R :=
  fract (sin (dot p (12.9898, 78.233)) * 43758.5453).

(** [void main()], with the uniform [time] and the varying [vUv] as
    arguments and [gl_FragColor] as result. *)
Definition main (time : R) (vUv : vec2) : vec4 :=
  let baseColor := mkVector3 1.0 0.7 0.2 in
  let spotColor := mkVector3 0.6 0.3 0.1 in
  let n := noise (vec2_add_scalar (vec2_scale vUv 5.0) (time * 0.05)) in
  let n := n + noise (vec2_add_scalar (vec2_scale vUv 12.0) (time * 0.08)) * 0.5 in
  let n := smoothstep 0.4 0.7 n in
  let color := mix spotColor baseColor n in
  mkVec4 color 1.0.

(** The colour law as the specification words it, to be compared with
    [main]. *)
Definition spec_noise (p : vec2) : R :=
  fract (sin (fst p * 12.9898 + snd p * 78.233) * 43758.5453).

Definition spec_n (uv : vec2) (time : R) : R :=
  smoothstep 0.4 0.7
    (spec_noise (fst uv * 5 + time * 0.05, snd uv * 5 + time * 0.05)
     + 0.5 * spec_noise (fst uv * 12 + time * 0.08, snd uv * 12 + time * 0.08)).

Definition spec_rgb (uv : vec2) (time : R) : vec3 :=
  mix (mkVector3 0.6 0.3 0.1) (mkVector3 1.0 0.7 0.2) (spec_n uv time).

End Shader.

(** ** The program state *)

Record App := mkApp {
  renderer : WebGLRenderer;
  camera : PerspectiveCamera;
  (** [sunMat.uniforms.time.value] *)
  sunMat_time : R;
  sunGroup_scale : Vector3;
  sunGroup_rotation_y : R;
  (** the meshes added to [sunGroup] before the flares, in the order added *)
  meshes : list Object3D;
  (** the flare lines: the array [flares], also children of [sunGroup] *)
  flares : list Object3D
}.

(** [sunGroup.children], in the order the objects were added. *)
Definition sunGroup_children (a : App) : list Object3D :=
  meshes a ++ flares a.

(** ** Construction *)

Definition geo : Geometry := IcosahedronGeometry 1.0 6.

(** The uniform [time] of this material is the component [sunMat_time] of
    the state. *)
Definition sunMat : Material := Material_default ShaderMaterial.

Definition sunMesh : Object3D :=
  mkObject3D Mesh geo sunMat (setScalar 1) 0 None.

Definition wireMat : Material :=
  mkMaterial MeshBasicMaterial (Color_of_hex 0xffdd99) true true 0.3
             NormalBlending FrontSide true true.

Definition wireMesh : Object3D :=
  mkObject3D Mesh geo wireMat (setScalar 1.012) 0.5 None.

Definition occlusion : Object3D :=
  mkObject3D Mesh
    (SphereGeometry 1.025 64 48)
    (mkMaterial MeshBasicMaterial (Color_of_hex 0x000000) false true 0
                NormalBlending FrontSide true false)
    (setScalar 1) 1 None.

(** The body of the corona loop, for the loop index [i], over the reals;
    [Binary64.corona] has radius, multiplier and opacity as the program
    stores them. *)
Definition corona (i : nat) : Object3D :=
  let radius := 1.0 + INR i * 0.16 in
  mkObject3D Mesh
    (SphereGeometry radius 64 48)
    (mkMaterial MeshBasicMaterial
                (Color_multiplyScalar (Color_of_hex 0xffaa44) (1.4 - INR i * 0.28))
                false true (0.2 - INR i * 0.11) AdditiveBlending BackSide
                false true)
    (setScalar 1) (2 + INR i) None.

(** [for (let i = 1; i <= 4; i++)] *)
Definition coronas : list Object3D := map corona (seq 1 4).

Definition flareCount : nat := 8.

(** The calls to [Math.random()] written in index.js draw from a sequence of
    numbers; a computation that
    draws takes the number of draws made so far and returns the new count. *)
Definition Rand (A : Type) : Type := nat -> A * nat.

Definition ret {A} (a : A) : Rand A := fun k => (a, k).

Definition bind {A B} (m : Rand A) (f : A -> Rand B) : Rand B :=
  fun k => let (a, k') := m k in f a k'.

Notation "x <- m ;; f" := (bind m (fun x => f))
  (at level 61, m at next level, right associativity).

Section Program.

(** The numbers [Math.random()] returns to the calls written in index.js, in
    the order of those calls.  three.js draws from the same source inside
    its constructors, for the identifier of each geometry, material and
    object; those draws are not in this sequence and the identifiers are not
    modelled. *)
Variable random : nat -> R.

(** The camera controls, [controls.update()]. *)
Variable controls_update : PerspectiveCamera -> PerspectiveCamera.

Definition Math_random : Rand R := fun k => (random k, S k).

(** The body of the flare loop, for the loop index [i]. *)
Definition flare (i : nat) : Rand Object3D :=
  x1 <- Math_random ;; y1 <- Math_random ;; z1 <- Math_random ;;
  let p1 := multiplyScalar
              (normalize (mkVector3 ((x1 - 0.5) * 0.8) ((y1 - 0.5) * 0.8)
                                    ((z1 - 0.5) * 0.8))) 1.1 in
  x2 <- Math_random ;; y2 <- Math_random ;; z2 <- Math_random ;;
  let n2 := normalize (mkVector3 ((x2 - 0.5) * 3) ((y2 - 0.5) * 3)
                                 ((z2 - 0.5) * 3)) in
  r <- Math_random ;;
  let p2 := multiplyScalar n2 (2.5 + r * 1.5) in
  let curve := [mkVector3 0 0 0; p1; p2] in
  let points := getPoints curve 50 in
  let flareGeo := BufferGeometry points in
  o <- Math_random ;;
  let flareMat :=
    mkMaterial LineBasicMaterial (Color_of_hex 0xffee99) false true
               (0.7 + o * 0.3) AdditiveBlending FrontSide true true in
  s <- Math_random ;;
  ret (mkObject3D Line flareGeo flareMat (setScalar 1) (10 + INR i)
                  (Some (mkUserData (INR i * 1.5) (1 + s * 0.8)))).

(** [for (let i = ...; i < flareCount; i++)], with [n] iterations left. *)
Fixpoint flare_loop (n i : nat) : Rand (list Object3D) :=
  match n with
  | O => ret []
  | S n' => f <- flare i ;; fs <- flare_loop n' (S i) ;; ret (f :: fs)
  end.

(** The state once the module body has run, up to the first call of
    [animate], in a window of [w] by [h]. *)
Definition init (w h : R) : App :=
  let renderer := setSize (mkRenderer 0 0) w h in
  let camera := updateProjectionMatrix (mkCamera 75 (w / h) 0.1 1000 5 0) in
  mkApp renderer camera 0 (setScalar 1) 0
        ([sunMesh; wireMesh; occlusion] ++ coronas)
        (fst (flare_loop flareCount 0 0%nat)).

(** ** Animation *)

(** The callback of [flares.forEach]. *)
Definition animate_flare (time : R) (flare : Object3D) : Object3D :=
  match userData flare with
  | Some ud =>
      let phase := JS.rem (time + phase ud) (JS.Math_PI * 2) in
      let grow := JS.Math_max 0 (JS.Math_sin (phase * 2) * 1.5) in
      mkObject3D (otype flare) (geometry flare)
        (let m := material flare in
         mkMaterial (mtype m) (color m) (wireframe m) (transparent m)
                    (0.4 + JS.Math_sin (phase * 3) * 0.6)
                    (blending m) (side m) (depthWrite m) (colorWrite m))
        (setScalar (grow * baseScale ud))
        (renderOrder flare) (userData flare)
  | None => flare
  end.

(** One tick, [animate(t)].  [requestAnimationFrame] schedules the next
    tick and [renderer.render] draws; neither writes to the state. *)
Definition animate (t : R) (a : App) : App :=
  let time := t * 0.0005 in
  let pulse := 1 + JS.Math_sin (time * 2) * 0.02 in
  mkApp (renderer a)
        (controls_update (camera a))
        time
        (setScalar pulse)
        (time * 0.3)
        (meshes a)
        (map (animate_flare time) (flares a)).

(** The first call, [animate()], takes the default [t = 0]. *)
Definition animate_first (a : App) : App := animate 0 a.

(** ** Resize *)

(** The [resize] listener, in a window that is now [w] by [h]. *)
Definition on_resize (w h : R) (a : App) : App :=
  let renderer' := setSize (renderer a) w h in
  let camera' :=
    mkCamera (fov (camera a)) (w / h) (near (camera a)) (far (camera a))
             (position_z (camera a)) (projection_aspect (camera a)) in
  mkApp renderer' (updateProjectionMatrix camera')
        (sunMat_time a) (sunGroup_scale a) (sunGroup_rotation_y a)
        (meshes a) (flares a).

End Program.

(** ** The construction-time constants in binary64

    The expressions of the corona loop and the radii of the inner layers,
    evaluated with the rounding of JavaScript numbers. *)

Module Binary64.
Import Floats.

#[local] Set Warnings "-inexact-float".

Definition corona_radius (i : float) : float := (1.0 + i * 0.16)%float.
Definition corona_multiplier (i : float) : float := (1.4 - i * 0.28)%float.
Definition corona_opacity (i : float) : float := (0.2 - i * 0.11)%float.
Definition corona_renderOrder (i : float) : float := (2 + i)%float.
Definition body_radius : float := 1.0%float.
Definition wire_radius : float := (1.0 * 1.012)%float.
Definition occlusion_radius : float := 1.025%float.

(** The expressions of the flare loop that take one draw [r]. *)
Definition tip_radius (r : float) : float := (2.5 + r * 1.5)%float.
Definition flare_opacity (r : float) : float := (0.7 + r * 0.3)%float.
Definition flare_baseScale (r : float) : float := (1 + r * 0.8)%float.

(** The largest number below 1. *)
Definition last_draw : float := 0x1.fffffffffffffp-1%float.

(** The expressions of the tick that take one sine [s]. *)
Definition pulse (s : float) : float := (1 + s * 0.02)%float.
Definition tick_opacity (s : float) : float := (0.4 + s * 0.6)%float.

(** What the corona loop gives a shell. *)
Record Shell := mkShell {
  radius : float;
  multiplier : float;
  opacity : float;
  renderOrder : float
}.

(** The body of the corona loop, for the loop index [i]. *)
Definition corona (i : float) : Shell :=
  mkShell (corona_radius i) (corona_multiplier i) (corona_opacity i)
          (corona_renderOrder i).

(** [for (let i = ...; i <= 4; i++)], with at most [fuel] iterations. *)
Fixpoint corona_loop (fuel : nat) (i : float) : list Shell :=
  match fuel with
  | O => []
  | S fuel' =>
      if (i <=? 4)%float then corona i :: corona_loop fuel' (i + 1)%float
      else []
  end.

Definition coronas : list Shell := corona_loop 5 1%float.

(** [Vector3], with the methods the flare loop calls. *)
Record Vec := mkVec { vx : float; vy : float; vz : float }.

Definition multiplyScalar (v : Vec) (s : float) : Vec :=
  mkVec (vx v * s)%float (vy v * s)%float (vz v * s)%float.

Definition vec_length (v : Vec) : float :=
  sqrt (vx v * vx v + vy v * vy v + vz v * vz v)%float.

(** [a || d] on numbers: [0], [-0] and [NaN] are falsy. *)
Definition or_else (a d : float) : float :=
  if orb (a =? 0)%float (is_nan a) then d else a.

Definition normalize (v : Vec) : Vec :=
  multiplyScalar v (1 / or_else (vec_length v) 1)%float.

(** The second and third control points of a flare, from the draws
    [x y z] and, for the tip, the draw [r] of its radius. *)
Definition waypoint (x y z : float) : Vec :=
  multiplyScalar
    (normalize (mkVec ((x - 0.5) * 0.8) ((y - 0.5) * 0.8) ((z - 0.5) * 0.8))%float)
    1.1%float.

Definition tip (x y z r : float) : Vec :=
  multiplyScalar
    (normalize (mkVec ((x - 0.5) * 3) ((y - 0.5) * 3) ((z - 0.5) * 3))%float)
    (tip_radius r).

(** [a < b < c < ...] along a list. *)
Fixpoint increasing (l : list float) : bool :=
  match l with
  | a :: (b :: _) as t => (a <? b)%float && increasing t
  | _ => true
  end.

(** [a] and [b] differ by at most [2^-52]. *)
Definition close (a b : float) : bool := (abs (a - b) <=? 0x1p-52)%float.

End Binary64.

(** ** Notions the properties are stated with *)

(** The radius of a sphere mesh inside [sunGroup]: the radius of its
    geometry times its own scale. *)
Definition mesh_radius (o : Object3D) : R :=
  match geometry_radius (geometry o) with
  | Some r => r * x (scale o)
  | None => 0
  end.

(** The render orders of the children of the group, in the order the
    children were added. *)
Definition renderOrders (a : App) : list R :=
  map renderOrder (sunGroup_children a).

(** The state after construction, and after any sequence of ticks and
    resize events. *)
Inductive reachable (random : nat -> R)
          (controls_update : PerspectiveCamera -> PerspectiveCamera)
  : App -> Prop :=
| reach_init (w h : R) :
    reachable random controls_update (init random w h)
| reach_animate (t : R) (a : App) :
    reachable random controls_update a ->
    reachable random controls_update (animate controls_update t a)
| reach_resize (w h : R) (a : App) :
    reachable random controls_update a ->
    reachable random controls_update (on_resize w h a).

(** What the scene shows: the shader uniform, the transform of the group and
    the children of the group. *)
Definition scene_state (a : App) : R * Vector3 * R * list Object3D :=
  (sunMat_time a, sunGroup_scale a, sunGroup_rotation_y a,
   sunGroup_children a).

(** The metadata the flare loop stores on flare [j]. *)
Definition flare_metadata (random : nat -> R) (j : nat) : option UserData :=
  Some (mkUserData (INR j * 1.5) (1 + random (9 * j + 8)%nat * 0.8)).

(** The growth factor of a flare whose metadata phase is [p], at time 0. *)
Definition grow_at_zero (p : R) : R :=
  Rmax 0 (sin (JS.rem (0 * 0.0005 + p) (2 * PI) * 2) * 1.5).

(** The two random control points of the flare built after [k] draws: the
    waypoint near the surface and the outer tip. *)
Definition flare_vector (random : nat -> R) (k : nat) (s : R) : Vector3 :=
  mkVector3 ((random k - 0.5) * s) ((random (1 + k)%nat - 0.5) * s)
            ((random (2 + k)%nat - 0.5) * s).

Definition flare_waypoint (random : nat -> R) (k : nat) : Vector3 :=
  multiplyScalar (normalize (flare_vector random k 0.8)) 1.1.

Definition flare_tip (random : nat -> R) (k : nat) : Vector3 :=
  multiplyScalar (normalize (flare_vector random (3 + k) 3))
                 (2.5 + random (6 + k)%nat * 1.5).

(** What rounding may move a value by, generously: the lengths and sums the
    program computes in binary64 differ from the real ones in their last
    places only ([Binary64Facts.control_points_as_stored] has three such
    lengths). *)
Definition rounding : R := 0.000000001.

(** The control points a flare line was sampled from. *)
Definition flare_curve (f : Object3D) : list Vector3 :=
  match geometry_points (geometry f) with
  | p :: _ => control p
  | [] => []
  end.

(** What no tick and no resize writes on a flare line: its type, geometry,
    render order and metadata, and every property of its material but the
    opacity. *)
Definition flare_fixed (f : Object3D)
  : ObjectType * Geometry * R * option UserData
    * (MaterialType * Color * bool * bool * Blending * Side * bool * bool) :=
  let m := material f in
  (otype f, geometry f, renderOrder f, userData f,
   (mtype m, color m, wireframe m, transparent m, blending m, side m,
    depthWrite m, colorWrite m)).

(** The radius of a sphere mesh in the scene: its radius inside the group
    times the uniform scale of the group. *)
Definition world_radius (a : App) (o : Object3D) : R :=
  x (sunGroup_scale a) * mesh_radius o.

(** The children of the group that write no colour. *)
Definition depth_only (a : App) : list Object3D :=
  filter (fun o => negb (colorWrite (material o))) (sunGroup_children a).

(** The two octaves of noise the shader sums before the threshold. *)
Definition octave_sum (time : R) (vUv : Shader.vec2) : R :=
  Shader.noise (Shader.vec2_add_scalar (Shader.vec2_scale vUv 5.0) (time * 0.05))
  + Shader.noise (Shader.vec2_add_scalar (Shader.vec2_scale vUv 12.0)
                                         (time * 0.08)) * 0.5.

Definition spotColor : Vector3 := mkVector3 0.6 0.3 0.1.
Definition baseColor : Vector3 := mkVector3 1.0 0.7 0.2.

(** The draws of the flare loop that become the opacity of a line material:
    the eighth of every nine. *)
Definition is_opacity_draw (k : nat) : bool := (k mod 9 =? 7)%nat.

(** * Properties *)

(** ** Numbers *)

Lemma PI_lower : 3 < PI.
Proof. pose proof PI2_3_2. lra. Qed.

Lemma PI_upper : PI < 3.5.
Proof.
  destruct (PI_ineq 1) as [_ H].
  unfold tg_alt, PI_tg in H. simpl in H. lra.
Qed.

Lemma trunc_nonneg (r : R) : 0 <= r -> JS.trunc r = Int_part r.
Proof.
  intro H. unfold JS.trunc. destruct (Rle_dec 0 r); [reflexivity | contradiction].
Qed.

(** On a non-negative dividend and a positive divisor, [%] lands in
    [[0, b)]. *)
Lemma rem_range (a b : R) : 0 <= a -> 0 < b -> 0 <= JS.rem a b < b.
Proof.
  intros Ha Hb. unfold JS.rem.
  assert (Hq : 0 <= a / b).
  { apply Rmult_le_pos; [assumption | left; apply Rinv_0_lt_compat; assumption]. }
  rewrite (trunc_nonneg _ Hq).
  destruct (base_Int_part (a / b)) as [Hlo Hhi].
  set (q := IZR (Int_part (a / b))) in *.
  assert (Hab : a = b * (a / b)) by (field; lra).
  split.
  - assert (b * q <= b * (a / b)) by (apply Rmult_le_compat_l; lra). lra.
  - assert (b * (a / b) < b * (q + 1)) by (apply Rmult_lt_compat_l; lra). lra.
Qed.

(** [a % b] is [a - q * b] when the quotient [a / b] lies in [[q, q + 1)]. *)
Lemma rem_quotient (a b : R) (q : Z) :
  0 < b -> 0 <= IZR q -> IZR q * b <= a < (IZR q + 1) * b ->
  JS.rem a b = a - b * IZR q.
Proof.
  intros Hb Hq [Hlo Hhi]. unfold JS.rem.
  assert (Hle : IZR q <= a / b).
  { apply Rmult_le_reg_r with b; [assumption |].
    replace (a / b * b) with a by (field; lra). assumption. }
  assert (Hlt : a / b < IZR q + 1).
  { apply Rmult_lt_reg_r with b; [assumption |].
    replace (a / b * b) with a by (field; lra). assumption. }
  rewrite trunc_nonneg by lra.
  rewrite <- (Int_part_spec (a / b) q) by lra.
  reflexivity.
Qed.

Lemma rem_small (a b : R) : 0 <= a < b -> JS.rem a b = a.
Proof.
  intros [Ha Hb].
  rewrite (rem_quotient a b 0); [lra | lra | lra | lra].
Qed.

(** ** Vectors *)

Lemma sum_squares_nonneg (a b c : R) : 0 <= a * a + b * b + c * c.
Proof. nra. Qed.

Lemma length_nonneg (v : Vector3) : 0 <= length v.
Proof. apply sqrt_pos. Qed.

Lemma length_multiplyScalar (v : Vector3) (s : R) :
  length (multiplyScalar v s) = Rabs s * length v.
Proof.
  unfold length, multiplyScalar; simpl.
  replace (x v * s * (x v * s) + y v * s * (y v * s) + z v * s * (z v * s))
    with (s² * (x v * x v + y v * y v + z v * z v)) by (unfold Rsqr; ring).
  rewrite sqrt_mult; [| apply Rle_0_sqr | apply sum_squares_nonneg].
  rewrite sqrt_Rsqr_abs. reflexivity.
Qed.

Lemma length_zero_iff (v : Vector3) :
  length v = 0 <-> (x v = 0 /\ y v = 0 /\ z v = 0).
Proof.
  unfold length. split.
  - intro H. apply sqrt_eq_0 in H; [| apply sum_squares_nonneg]. nra.
  - intros (-> & -> & ->).
    replace (0 * 0 + 0 * 0 + 0 * 0) with 0 by ring. apply sqrt_0.
Qed.

(** A vector that is not the origin is normalised to length one. *)
Lemma length_normalize (v : Vector3) : length v <> 0 -> length (normalize v) = 1.
Proof.
  intro H. unfold normalize, divideScalar, JS.or_else.
  destruct (Req_dec_T (length v) 0) as [E | _]; [contradiction |].
  rewrite length_multiplyScalar.
  pose proof (length_nonneg v).
  rewrite Rabs_right.
  - field. assumption.
  - apply Rle_ge. unfold Rdiv. rewrite Rmult_1_l. left.
    apply Rinv_0_lt_compat. lra.
Qed.

(** The origin is left where it is: [length() || 1] divides by one. *)
Lemma normalize_origin : normalize (mkVector3 0 0 0) = mkVector3 0 0 0.
Proof.
  unfold normalize, divideScalar, multiplyScalar; simpl.
  f_equal; ring.
Qed.

Lemma length_origin : length (mkVector3 0 0 0) = 0.
Proof. apply length_zero_iff; simpl; auto. Qed.

(** ** Construction *)

Lemma coronas_unfold : coronas = [corona 1; corona 2; corona 3; corona 4].
Proof. reflexivity. Qed.

Ltac list_eq_lra :=
  repeat (apply f_equal2; [try lra | ]); try reflexivity.

Lemma corona_renderOrders : map renderOrder coronas = [3; 4; 5; 6].
Proof. rewrite coronas_unfold. simpl. list_eq_lra. Qed.

Lemma corona_radii : map mesh_radius coronas = [1.16; 1.32; 1.48; 1.64].
Proof. rewrite coronas_unfold. unfold mesh_radius. simpl. list_eq_lra. Qed.

(** Each iteration of the flare loop draws nine numbers. *)
Lemma flare_draws (random : nat -> R) (i k : nat) :
  snd (flare random i k) = (k + 9)%nat.
Proof. unfold flare, bind, Math_random, ret; simpl. lia. Qed.

Lemma flare_loop_unfold (random : nat -> R) (n i k : nat) :
  flare_loop random n i k =
  (map (fun j => fst (flare random (i + j)%nat (k + 9 * j)%nat)) (seq 0 n),
   (k + 9 * n)%nat).
Proof.
  revert i k. induction n as [| n IH]; intros i k.
  - simpl. unfold ret. f_equal. lia.
  - change (flare_loop random (S n) i k)
      with (bind (flare random i)
                 (fun f => bind (flare_loop random n (S i))
                                (fun fs => ret (f :: fs))) k).
    unfold bind at 1.
    pose proof (flare_draws random i k) as Hk.
    destruct (flare random i k) as [f k'] eqn:Ef. simpl in Hk. subst k'.
    unfold bind. rewrite IH. unfold ret.
    f_equal; [| lia].
    rewrite <- cons_seq, <- seq_shift, map_cons, map_map.
    f_equal.
    + replace (i + 0)%nat with i by lia.
      replace (k + 9 * 0)%nat with k by lia. rewrite Ef. reflexivity.
    + apply map_ext. intro j. f_equal. f_equal; lia.
Qed.

Lemma init_flares (random : nat -> R) (w h : R) :
  flares (init random w h) =
  map (fun j => fst (flare random j (9 * j)%nat)) (seq 0 8).
Proof.
  unfold init. cbv zeta. cbn [flares]. unfold flareCount.
  rewrite flare_loop_unfold. reflexivity.
Qed.

Lemma flare_renderOrder (random : nat -> R) (i k : nat) :
  renderOrder (fst (flare random i k)) = 10 + INR i.
Proof. reflexivity. Qed.

Lemma flare_userData (random : nat -> R) (i k : nat) :
  userData (fst (flare random i k)) =
  Some (mkUserData (INR i * 1.5) (1 + random (k + 8)%nat * 0.8)).
Proof.
  unfold flare, bind, Math_random, ret; simpl.
  repeat f_equal. lia.
Qed.

Lemma init_flare_renderOrders (random : nat -> R) (w h : R) :
  map renderOrder (flares (init random w h)) =
  [10; 11; 12; 13; 14; 15; 16; 17].
Proof.
  rewrite init_flares, map_map.
  simpl. list_eq_lra.
Qed.

(** C2, as the code has it.  The render orders assigned at construction are
    strictly increasing from layer to layer: sun body 0, wireframe overlay
    0.5, occlusion shell 1, the four corona shells 3 to 6 (that is [2 + i]
    for [i] from 1 to 4) and the eight flares 10 to 17; every corona order
    is above the occlusion shell and every flare order above every corona
    order. *)
Theorem renderOrder_total_order (random : nat -> R) (w h : R) :
  renderOrders (init random w h) =
    [0; 0.5; 1; 3; 4; 5; 6; 10; 11; 12; 13; 14; 15; 16; 17] /\
  StronglySorted Rlt (renderOrders (init random w h)) /\
  renderOrder sunMesh = 0 /\
  renderOrder wireMesh = 0.5 /\
  renderOrder occlusion = 1 /\
  map renderOrder coronas = [3; 4; 5; 6] /\
  map renderOrder (flares (init random w h)) =
    [10; 11; 12; 13; 14; 15; 16; 17] /\
  Forall (fun c => renderOrder occlusion < renderOrder c) coronas /\
  Forall (fun f => Forall (fun c => renderOrder c < renderOrder f) coronas)
         (flares (init random w h)).
Proof.
  assert (E : renderOrders (init random w h) =
              [0; 0.5; 1; 3; 4; 5; 6; 10; 11; 12; 13; 14; 15; 16; 17]).
  { unfold renderOrders, sunGroup_children. rewrite map_app.
    rewrite init_flare_renderOrders.
    unfold init. cbv zeta. cbn [meshes]. rewrite map_app, corona_renderOrders.
    reflexivity. }
  split; [exact E |].
  split.
  { rewrite E.
    repeat (apply SSorted_cons || apply SSorted_nil);
      repeat (apply Forall_cons || apply Forall_nil); lra. }
  split; [reflexivity |]. split; [reflexivity |]. split; [reflexivity |].
  split; [apply corona_renderOrders |].
  split; [apply init_flare_renderOrders |].
  split.
  - apply Forall_forall. intros c Hc.
    apply (in_map renderOrder) in Hc. rewrite corona_renderOrders in Hc.
    simpl in *. lra.
  - apply Forall_forall. intros f Hf. apply Forall_forall. intros c Hc.
    apply (in_map renderOrder) in Hf. rewrite init_flare_renderOrders in Hf.
    apply (in_map renderOrder) in Hc. rewrite corona_renderOrders in Hc.
    simpl in *. lra.
Qed.

(** C2, as the specification words it, does not hold: the corona shells are drawn at 3, 4, 5
    and 6, not at 2 to 5; no shell has order 2 and the last one has order
    6. *)
Lemma corona_renderOrders_not_2_to_5 :
  map renderOrder coronas <> [2; 3; 4; 5] /\
  ~ Forall (fun c => 2 <= renderOrder c <= 5) coronas /\
  ~ In 2 (map renderOrder coronas).
Proof.
  rewrite corona_renderOrders. split; [| split].
  - intro H. injection H. lra.
  - intro H.
    assert (Hin : In (corona 4) coronas) by (rewrite coronas_unfold; simpl; auto).
    rewrite Forall_forall in H. specialize (H _ Hin). simpl in H. lra.
  - simpl. lra.
Qed.

(** C9.  The layered spheres are strictly nested at construction: body
    radius 1.0, wireframe overlay scaled by 1.012, occlusion shell radius
    1.025, smallest corona shell radius 1.16; the occlusion shell encloses
    body and wireframe and lies strictly inside every corona shell. *)
Theorem spheres_strictly_nested :
  geometry_radius geo = Some 1.0 /\
  geometry wireMesh = geo /\ scale wireMesh = setScalar 1.012 /\
  geometry_radius (geometry occlusion) = Some 1.025 /\
  mesh_radius sunMesh = 1.0 /\
  mesh_radius wireMesh = 1.012 /\
  mesh_radius occlusion = 1.025 /\
  map mesh_radius coronas = [1.16; 1.32; 1.48; 1.64] /\
  mesh_radius sunMesh < mesh_radius wireMesh /\
  mesh_radius wireMesh < mesh_radius occlusion /\
  Forall (fun c => mesh_radius occlusion < mesh_radius c) coronas /\
  Forall (fun c => mesh_radius (corona 1) <= mesh_radius c) coronas.
Proof.
  assert (Hs : mesh_radius sunMesh = 1.0) by (unfold mesh_radius; simpl; lra).
  assert (Hw : mesh_radius wireMesh = 1.012) by (unfold mesh_radius; simpl; lra).
  assert (Ho : mesh_radius occlusion = 1.025) by (unfold mesh_radius; simpl; lra).
  assert (H1 : mesh_radius (corona 1) = 1.16) by (unfold mesh_radius; simpl; lra).
  repeat split; try reflexivity; try assumption; try lra.
  - apply corona_radii.
  - apply Forall_forall. intros c Hc.
    apply (in_map mesh_radius) in Hc. rewrite corona_radii in Hc.
    simpl in Hc. lra.
  - apply Forall_forall. intros c Hc.
    apply (in_map mesh_radius) in Hc. rewrite corona_radii in Hc.
    simpl in Hc. lra.
Qed.

(** ** States the program reaches *)

Lemma animate_flare_userData (time : R) (f : Object3D) :
  userData (animate_flare time f) = userData f.
Proof.
  unfold animate_flare. destruct (userData f) eqn:E; simpl; auto.
Qed.

(** Phase and base scale of the flares never change. *)
Lemma reachable_userData random controls_update a :
  reachable random controls_update a ->
  map userData (flares a) = map (flare_metadata random) (seq 0 8).
Proof.
  induction 1 as [w h | t a _ IH | w h a _ IH].
  - rewrite init_flares, map_map. apply map_ext. intro j.
    rewrite flare_userData. reflexivity.
  - unfold animate. cbv zeta. cbn [flares].
    rewrite map_map, <- IH. apply map_ext.
    apply animate_flare_userData.
  - exact IH.
Qed.

Lemma reachable_flare random controls_update a (i : nat) :
  reachable random controls_update a -> (i < 8)%nat ->
  exists f, nth_error (flares a) i = Some f /\
            userData f = flare_metadata random i.
Proof.
  intros Hr Hi. apply reachable_userData in Hr.
  apply (f_equal (fun l => nth_error l i)) in Hr.
  rewrite !nth_error_map, nth_error_seq in Hr.
  apply Nat.ltb_lt in Hi. rewrite Hi in Hr. simpl in Hr.
  destruct (nth_error (flares a) i) as [f |]; [| discriminate].
  exists f. split; [reflexivity |]. simpl in Hr. congruence.
Qed.

(** What the [forEach] callback writes on a flare. *)
Lemma animate_flare_writes (time : R) (f : Object3D) (ud : UserData) :
  userData f = Some ud ->
  let phase_f := JS.rem (time + phase ud) (2 * PI) in
  scale (animate_flare time f)
    = setScalar (Rmax 0 (sin (phase_f * 2) * 1.5) * baseScale ud) /\
  opacity (material (animate_flare time f)) = 0.4 + sin (phase_f * 3) * 0.6.
Proof.
  intros E. unfold animate_flare. rewrite E. simpl.
  unfold JS.Math_PI, JS.Math_max, JS.Math_sin.
  rewrite (Rmult_comm PI 2). split; reflexivity.
Qed.

Lemma animate_flare_idempotent (time : R) (f : Object3D) :
  animate_flare time (animate_flare time f) = animate_flare time f.
Proof.
  destruct (userData f) as [ud |] eqn:E; unfold animate_flare.
  - rewrite E. simpl. reflexivity.
  - rewrite E. cbv iota. rewrite E. reflexivity.
Qed.

(** ** The tick *)

(** C5.  For every time [>= 0] the uniform scale the tick gives the group is
    [1 + sin(time * 2) * 0.02] and lies in [[0.98, 1.02]]. *)
Theorem pulse_scale_range controls_update (a : App) (t : R) :
  0 <= t * 0.0005 ->
  let time := t * 0.0005 in
  sunGroup_scale (animate controls_update t a)
    = setScalar (1 + sin (time * 2) * 0.02) /\
  0.98 <= 1 + sin (time * 2) * 0.02 <= 1.02.
Proof.
  intros _ time. split; [reflexivity |].
  pose proof (SIN_bound (time * 2)). lra.
Qed.

Lemma pulse_scale_range_witness :
  0 <= 0 * 0.0005 /\
  sunGroup_scale (animate (fun c => c) 0 (init (fun _ => 0) 800 600))
    = setScalar (1 + sin (0 * 0.0005 * 2) * 0.02).
Proof.
  split; [lra |].
  apply (pulse_scale_range (fun c => c) (init (fun _ => 0) 800 600) 0). lra.
Defined.

(** C4.  In every state the program reaches and for every time [>= 0], the
    tick computes for flare [i] the phase [(time + i * 1.5) mod 2 PI], which
    lies in [[0, 2 PI)]; it sets the scale of the flare to
    [max(0, sin(phase * 2) * 1.5) * baseScale], which is never negative, and
    its opacity to [0.4 + sin(phase * 3) * 0.6], which lies in
    [[-0.2, 1.0]]. *)
Theorem flare_animation_law random controls_update (a : App) (t : R) (i : nat) :
  (forall k, 0 <= random k < 1) ->
  reachable random controls_update a ->
  0 <= t * 0.0005 ->
  (i < 8)%nat ->
  let time := t * 0.0005 in
  let phase_i := JS.rem (time + INR i * 1.5) (2 * PI) in
  exists f ud,
    nth_error (flares (animate controls_update t a)) i = Some f /\
    userData f = Some ud /\
    phase ud = INR i * 1.5 /\
    1.0 <= baseScale ud < 1.8 /\
    0 <= phase_i < 2 * PI /\
    scale f = setScalar (Rmax 0 (sin (phase_i * 2) * 1.5) * baseScale ud) /\
    0 <= Rmax 0 (sin (phase_i * 2) * 1.5) * baseScale ud /\
    opacity (material f) = 0.4 + sin (phase_i * 3) * 0.6 /\
    -0.2 <= opacity (material f) <= 1.0.
Proof.
  intros Hrand Hreach Ht Hi time phase_i.
  destruct (reachable_flare _ _ _ i Hreach Hi) as (f & Hnth & Hud).
  unfold flare_metadata in Hud.
  set (ud := mkUserData (INR i * 1.5) (1 + random (9 * i + 8)%nat * 0.8)) in *.
  destruct (animate_flare_writes time f ud Hud) as [Hs Ho].
  exists (animate_flare time f), ud.
  assert (Hb : 1.0 <= baseScale ud < 1.8).
  { unfold ud. cbn [baseScale]. pose proof (Hrand (9 * i + 8)%nat). lra. }
  split.
  { simpl. apply map_nth_error. exact Hnth. }
  split; [rewrite animate_flare_userData; exact Hud |].
  split; [reflexivity |].
  split; [exact Hb |].
  split.
  { apply rem_range.
    - pose proof (pos_INR i). unfold time. lra.
    - pose proof PI_RGT_0. lra. }
  split; [exact Hs |].
  split.
  { apply Rmult_le_pos; [apply Rmax_l | lra]. }
  split; [exact Ho |].
  rewrite Ho.
  match goal with |- context [sin ?u] => pose proof (SIN_bound u) end. lra.
Qed.

Lemma flare_animation_law_witness :
  (forall k : nat, 0 <= (fun _ : nat => 0) k < 1) /\
  reachable (fun _ => 0) (fun c => c) (init (fun _ => 0) 800 600) /\
  0 <= 0 * 0.0005 /\
  (0 < 8)%nat /\
  exists f ud,
    nth_error (flares (animate (fun c => c) 0 (init (fun _ => 0) 800 600))) 0
      = Some f /\
    userData f = Some ud /\
    -0.2 <= opacity (material f) <= 1.0.
Proof.
  assert (H1 : forall k : nat, 0 <= (fun _ : nat => 0) k < 1) by (intro; lra).
  assert (H2 : reachable (fun _ => 0) (fun c => c) (init (fun _ => 0) 800 600))
    by apply reach_init.
  assert (H3 : 0 <= 0 * 0.0005) by lra.
  assert (H4 : (0 < 8)%nat) by lia.
  repeat (split; [assumption |]).
  destruct (flare_animation_law (fun _ => 0) (fun c => c)
              (init (fun _ => 0) 800 600) 0 0 H1 H2 H3 H4)
    as (f & ud & Hn & Hu & _ & _ & _ & _ & _ & _ & Ho).
  exists f, ud. repeat split; try assumption; apply Ho.
Defined.

(** C10.  Running the tick twice with the same timestamp leaves the scene
    (shader uniform, group scale and rotation, every child of the group with
    its scale and opacity) as running it once does: every write is a
    function of the timestamp and of the metadata fixed at construction. *)
Theorem animate_idempotent controls_update (a : App) (t : R) :
  scene_state (animate controls_update t (animate controls_update t a))
  = scene_state (animate controls_update t a).
Proof.
  unfold scene_state, sunGroup_children. simpl.
  rewrite map_map.
  rewrite (map_ext _ (animate_flare (t * 0.0005))
             (animate_flare_idempotent (t * 0.0005))).
  reflexivity.
Qed.

(** ** The tick at timestamp zero *)

Lemma sin_pos_in_period (k : nat) (u : R) :
  2 * INR k * PI < u < (2 * INR k + 1) * PI -> 0 < sin u.
Proof.
  intros [Hlo Hhi].
  replace u with (u - 2 * INR k * PI + 2 * INR k * PI) by ring.
  rewrite sin_period. apply sin_gt_0; lra.
Qed.

Lemma sin_nonpos_in_period (k : nat) (u : R) :
  (2 * INR k + 1) * PI <= u <= (2 * INR k + 2) * PI -> sin u <= 0.
Proof.
  intros [Hlo Hhi].
  replace u with (u - 2 * INR k * PI + 2 * INR k * PI) by ring.
  rewrite sin_period. apply sin_le_0; lra.
Qed.

Lemma grow_at_zero_small (p : R) :
  0 <= p < 2 * PI -> grow_at_zero p = Rmax 0 (sin (p * 2) * 1.5).
Proof.
  intro H. unfold grow_at_zero.
  replace (0 * 0.0005 + p) with p by ring.
  rewrite rem_small by exact H. reflexivity.
Qed.

Lemma grow_at_zero_wrapped (p : R) :
  2 * PI <= p < 4 * PI ->
  grow_at_zero p = Rmax 0 (sin (p * 2) * 1.5).
Proof.
  intro H. unfold grow_at_zero.
  replace (0 * 0.0005 + p) with p by ring.
  pose proof PI_RGT_0.
  rewrite (rem_quotient p (2 * PI) 1) by lra.
  f_equal. f_equal.
  replace (p * 2) with ((p - 2 * PI * 1) * 2 + 2 * INR 2 * PI)
    by (simpl; ring).
  symmetry. apply sin_period.
Qed.

(** Where the sine of twice the phase is not positive the flare is
    collapsed, where it is positive the flare is grown by it. *)
Lemma grow_zero (u : R) : sin u <= 0 -> Rmax 0 (sin u * 1.5) = 0.
Proof. intro H. apply Rmax_left. lra. Qed.

Lemma grow_positive (u : R) : 0 < sin u -> 0 < Rmax 0 (sin u * 1.5).
Proof. intro H. rewrite Rmax_right; lra. Qed.

Lemma grow_at_zero_even :
  grow_at_zero (INR 0 * 1.5) = 0 /\ grow_at_zero (INR 2 * 1.5) = 0 /\
  grow_at_zero (INR 4 * 1.5) = 0 /\ grow_at_zero (INR 6 * 1.5) = 0.
Proof.
  pose proof PI_lower. pose proof PI_upper. simpl.
  repeat split.
  - rewrite grow_at_zero_small by lra. apply grow_zero.
    replace (0 * 1.5 * 2) with 0 by ring. rewrite sin_0. lra.
  - rewrite grow_at_zero_small by lra. apply grow_zero.
    apply (sin_nonpos_in_period 0). simpl. lra.
  - rewrite grow_at_zero_small by lra. apply grow_zero.
    apply (sin_nonpos_in_period 1). simpl. lra.
  - rewrite grow_at_zero_wrapped by lra. apply grow_zero.
    apply (sin_nonpos_in_period 2). simpl. lra.
Qed.

Lemma grow_at_zero_odd :
  0 < grow_at_zero (INR 1 * 1.5) /\ 0 < grow_at_zero (INR 3 * 1.5) /\
  0 < grow_at_zero (INR 5 * 1.5) /\ 0 < grow_at_zero (INR 7 * 1.5).
Proof.
  pose proof PI_lower. pose proof PI_upper. simpl.
  repeat split.
  - rewrite grow_at_zero_small by lra. apply grow_positive.
    apply (sin_pos_in_period 0). simpl. lra.
  - rewrite grow_at_zero_small by lra. apply grow_positive.
    apply (sin_pos_in_period 1). simpl. lra.
  - rewrite grow_at_zero_wrapped by lra. apply grow_positive.
    apply (sin_pos_in_period 2). simpl. lra.
  - rewrite grow_at_zero_wrapped by lra. apply grow_positive.
    apply (sin_pos_in_period 3). simpl. lra.
Qed.

(** The scale the tick at timestamp 0 gives flare [i]. *)
Lemma flare_scale_at_zero random controls_update (a : App) (i : nat) :
  reachable random controls_update a -> (i < 8)%nat ->
  exists f,
    nth_error (flares (animate controls_update 0 a)) i = Some f /\
    scale f = setScalar (grow_at_zero (INR i * 1.5)
                         * (1 + random (9 * i + 8)%nat * 0.8)).
Proof.
  intros Hreach Hi.
  destruct (reachable_flare _ _ _ i Hreach Hi) as (f & Hnth & Hud).
  exists (animate_flare (0 * 0.0005) f). split.
  - simpl. apply map_nth_error. exact Hnth.
  - destruct (animate_flare_writes (0 * 0.0005) f _ Hud) as [Hs _].
    exact Hs.
Qed.

(** C3, as the specification words it, does not hold: after the tick at timestamp 0 the
    second flare (index 1, phase 1.5) has scale [sin(3) * 1.5 * baseScale],
    which is positive. *)
Lemma flare_scale_at_zero_not_all_zero :
  exists f,
    nth_error (flares (animate (fun c => c) 0 (init (fun _ => 0) 800 600))) 1
      = Some f /\
    scale f = setScalar (sin 3 * 1.5) /\
    0 < sin 3 * 1.5 /\
    scale f <> setScalar 0.
Proof.
  destruct (flare_scale_at_zero (fun _ => 0) (fun c => c)
              (init (fun _ => 0) 800 600) 1 (reach_init _ _ _ _))
    as (f & Hnth & Hs); [lia |].
  assert (Hpos : 0 < sin 3) by
    (pose proof PI_lower; apply sin_gt_0; lra).
  assert (Hg : grow_at_zero (INR 1 * 1.5) = sin 3 * 1.5).
  { pose proof PI_lower.
    rewrite grow_at_zero_small by (simpl; lra).
    replace (INR 1 * 1.5 * 2) with 3 by (simpl; lra).
    apply Rmax_right. lra. }
  rewrite Hg in Hs.
  replace (sin 3 * 1.5 * (1 + 0 * 0.8)) with (sin 3 * 1.5) in Hs by ring.
  exists f. repeat split; try assumption; try lra.
  rewrite Hs. intro E. apply (f_equal x) in E. simpl in E. lra.
Qed.

(** C3, as the code has it.  The tick at timestamp 0 sets time and the
    shader uniform to 0, the pulse scale to exactly 1.0 and the rotation to
    exactly 0; it gives flare [i] the scale
    [max(0, sin(2 ((i * 1.5) mod 2 PI)) * 1.5) * baseScale], which is 0 for
    the flares 0, 2, 4 and 6 and positive for the flares 1, 3, 5 and 7. *)
Theorem tick_at_zero random controls_update (a : App) (i : nat) :
  (forall k, 0 <= random k < 1) ->
  reachable random controls_update a ->
  (i < 8)%nat ->
  let a' := animate controls_update 0 a in
  sunMat_time a' = 0 /\
  sunGroup_scale a' = setScalar 1.0 /\
  sunGroup_rotation_y a' = 0 /\
  exists f,
    nth_error (flares a') i = Some f /\
    scale f = setScalar (Rmax 0 (sin (JS.rem (INR i * 1.5) (2 * PI) * 2) * 1.5)
                         * (1 + random (9 * i + 8)%nat * 0.8)) /\
    (if Nat.even i then scale f = setScalar 0 else 0 < x (scale f)).
Proof.
  intros Hrand Hreach Hi a'.
  split; [simpl; lra |].
  split.
  { simpl. unfold JS.Math_sin.
    replace (0 * 0.0005 * 2) with 0 by ring. rewrite sin_0.
    unfold setScalar. f_equal; lra. }
  split; [simpl; lra |].
  destruct (flare_scale_at_zero random controls_update a i Hreach Hi)
    as (f & Hnth & Hs).
  exists f. split; [exact Hnth |].
  split.
  { rewrite Hs. unfold grow_at_zero.
    replace (0 * 0.0005 + INR i * 1.5) with (INR i * 1.5) by ring.
    reflexivity. }
  pose proof (Hrand (9 * i + 8)%nat) as Hr.
  destruct grow_at_zero_even as (E0 & E2 & E4 & E6).
  destruct grow_at_zero_odd as (P1 & P3 & P5 & P7).
  rewrite Hs.
  destruct i as [| [| [| [| [| [| [| [| i]]]]]]]];
    cbn [Nat.even setScalar x]; try lia.
  - rewrite E0. unfold setScalar. f_equal; ring.
  - apply Rmult_lt_0_compat; lra.
  - rewrite E2. unfold setScalar. f_equal; ring.
  - apply Rmult_lt_0_compat; lra.
  - rewrite E4. unfold setScalar. f_equal; ring.
  - apply Rmult_lt_0_compat; lra.
  - rewrite E6. unfold setScalar. f_equal; ring.
  - apply Rmult_lt_0_compat; lra.
Qed.

Lemma tick_at_zero_witness :
  (forall k : nat, 0 <= (fun _ : nat => 0) k < 1) /\
  reachable (fun _ => 0) (fun c => c) (init (fun _ => 0) 800 600) /\
  (1 < 8)%nat /\
  sunMat_time (animate (fun c => c) 0 (init (fun _ => 0) 800 600)) = 0 /\
  exists f,
    nth_error (flares (animate (fun c => c) 0 (init (fun _ => 0) 800 600))) 1
      = Some f /\
    0 < x (scale f).
Proof.
  assert (H1 : forall k : nat, 0 <= (fun _ : nat => 0) k < 1) by (intro; lra).
  assert (H2 : reachable (fun _ => 0) (fun c => c) (init (fun _ => 0) 800 600))
    by apply reach_init.
  assert (H3 : (1 < 8)%nat) by lia.
  repeat (split; [assumption |]).
  destruct (tick_at_zero (fun _ => 0) (fun c => c)
              (init (fun _ => 0) 800 600) 1 H1 H2 H3)
    as (Ht & _ & _ & f & Hn & _ & Hp).
  split; [exact Ht |].
  exists f. split; [exact Hn | exact Hp].
Defined.

(** ** Resize *)

Lemma on_resize_scene (w h : R) (a : App) :
  scene_state (on_resize w h a) = scene_state a.
Proof. reflexivity. Qed.

Lemma Rabs_lt_bound (u e : R) : - e < u < e -> Rabs u < e.
Proof. intros [Hlo Hhi]. apply Rabs_def1; lra. Qed.

(** C8.  A resize from 800 x 600 to 1920 x 1080 takes the aspect ratio of
    the camera from 800 / 600 (1.333) to 1920 / 1080 (1.778) and sets the
    output size of the renderer; the children of the group, their render
    orders, the transform of the group, the shader uniform and the other
    camera parameters are as before, for this and for any other resize. *)
Theorem resize_updates_camera_only (a : App) :
  renderer a = mkRenderer 800 600 ->
  aspect (camera a) = 800 / 600 ->
  let a' := on_resize 1920 1080 a in
  Rabs (aspect (camera a) - 1.333) < 0.0005 /\
  aspect (camera a') = 1920 / 1080 /\
  Rabs (aspect (camera a') - 1.778) < 0.0005 /\
  projection_aspect (camera a') = aspect (camera a') /\
  renderer a' = mkRenderer 1920 1080 /\
  sunGroup_children a' = sunGroup_children a /\
  renderOrders a' = renderOrders a /\
  scene_state a' = scene_state a /\
  (fov (camera a'), near (camera a'), far (camera a'), position_z (camera a'))
  = (fov (camera a), near (camera a), far (camera a), position_z (camera a)) /\
  (forall w h b,
      scene_state (on_resize w h b) = scene_state b /\
      renderer (on_resize w h b) = mkRenderer w h /\
      aspect (camera (on_resize w h b)) = w / h).
Proof.
  intros Hr Ha a'.
  split; [rewrite Ha; apply Rabs_lt_bound; lra |].
  split; [reflexivity |].
  split; [simpl; apply Rabs_lt_bound; lra |].
  repeat split; reflexivity.
Qed.

Lemma resize_updates_camera_only_witness :
  renderer (init (fun _ => 0) 800 600) = mkRenderer 800 600 /\
  aspect (camera (init (fun _ => 0) 800 600)) = 800 / 600 /\
  aspect (camera (on_resize 1920 1080 (init (fun _ => 0) 800 600)))
    = 1920 / 1080 /\
  scene_state (on_resize 1920 1080 (init (fun _ => 0) 800 600))
    = scene_state (init (fun _ => 0) 800 600).
Proof.
  assert (H1 : renderer (init (fun _ => 0) 800 600) = mkRenderer 800 600)
    by reflexivity.
  assert (H2 : aspect (camera (init (fun _ => 0) 800 600)) = 800 / 600)
    by reflexivity.
  repeat (split; [assumption |]).
  destruct (resize_updates_camera_only (init (fun _ => 0) 800 600) H1 H2)
    as (_ & Hasp & _ & _ & _ & _ & _ & Hscene & _).
  split; [exact Hasp | exact Hscene].
Defined.

(** ** The fragment shader *)

Lemma smoothstep_range (e0 e1 u : R) : 0 <= Shader.smoothstep e0 e1 u <= 1.
Proof.
  unfold Shader.smoothstep, Shader.clamp. cbv zeta.
  set (t := Rmin (Rmax ((u - e0) / (e1 - e0)) 0) 1).
  assert (Ht : 0 <= t <= 1).
  { unfold t. split.
    - apply Rmin_glb; [apply Rmax_r | lra].
    - apply Rmin_r. }
  clearbody t.
  assert (H0 : 0 <= t * t * (3 - 2 * t)).
  { apply Rmult_le_pos; [apply Rmult_le_pos |]; lra. }
  assert (H1 : 0 <= (1 - t) * (1 - t) * (1 + 2 * t)).
  { apply Rmult_le_pos; [apply Rmult_le_pos |]; lra. }
  split; [exact H0 | nra].
Qed.

Lemma noise_range (p : Shader.vec2) : 0 <= Shader.noise p < 1.
Proof.
  unfold Shader.noise, Shader.fract.
  match goal with |- context [Int_part ?u] =>
    destruct (base_Int_part u) end.
  lra.
Qed.

(** One octave: the noise of [vUv * k + time * s] is the hash the
    specification spells out, sampled at that point. *)
Lemma octave_as_specified (uv : Shader.vec2) (k k' time s : R) :
  k = k' ->
  Shader.noise (Shader.vec2_add_scalar (Shader.vec2_scale uv k) (time * s))
  = Shader.spec_noise (fst uv * k' + time * s, snd uv * k' + time * s).
Proof. intros ->. reflexivity. Qed.

(** C6.  The fragment colour is a function of [(uv, time)] alone: for every
    [(uv, time)] it is the mix of (0.6, 0.3, 0.1) and (1.0, 0.7, 0.2) at
    [n = smoothstep(0.4, 0.7, noise(uv * 5 + time * 0.05)
                              + 0.5 * noise(uv * 12 + time * 0.08))],
    with [noise(p) = fract(sin(dot(p, (12.9898, 78.233))) * 43758.5453)];
    [n] lies in [[0, 1]] and alpha is always 1. *)
Theorem fragment_color_law (time : R) (uv : Shader.vec2) :
  Shader.main time uv = Shader.mkVec4 (Shader.spec_rgb uv time) 1 /\
  Shader.alpha (Shader.main time uv) = 1 /\
  0 <= Shader.spec_n uv time <= 1.
Proof.
  split.
  { unfold Shader.main, Shader.spec_rgb, Shader.spec_n. cbv zeta.
    rewrite (octave_as_specified uv 5.0 5 time 0.05) by lra.
    rewrite (octave_as_specified uv 12.0 12 time 0.08) by lra.
    f_equal; [| lra].
    f_equal. f_equal. ring. }
  split; [simpl; lra |].
  apply smoothstep_range.
Qed.

(** ** Flare construction *)

Lemma flare_geometry (random : nat -> R) (i k : nat) :
  geometry (fst (flare random i k)) =
  BufferGeometry
    (getPoints [mkVector3 0 0 0; flare_waypoint random k; flare_tip random k]
               50).
Proof. reflexivity. Qed.

Lemma getPoints_length (curve : list Vector3) (n : nat) :
  List.length (getPoints curve n) = S n.
Proof. unfold getPoints. rewrite length_map, length_seq. reflexivity. Qed.

Lemma getPoints_control (curve : list Vector3) (n : nat) :
  Forall (fun p => control p = curve) (getPoints curve n).
Proof.
  unfold getPoints. apply Forall_forall. intros p Hp.
  apply in_map_iff in Hp. destruct Hp as (d & <- & _). reflexivity.
Qed.

Lemma getPoints_param (curve : list Vector3) (n : nat) :
  map param (getPoints curve n) = map (fun d => INR d / INR n) (seq 0 (S n)).
Proof. unfold getPoints. rewrite map_map. reflexivity. Qed.

(** A vector drawn in the cube is the origin exactly when its three draws
    are all 0.5. *)
Lemma flare_vector_origin (random : nat -> R) (k : nat) (s : R) :
  s <> 0 ->
  (length (flare_vector random k s) = 0 <->
   random k = 0.5 /\ random (1 + k)%nat = 0.5 /\ random (2 + k)%nat = 0.5).
Proof.
  intro Hs. rewrite length_zero_iff. unfold flare_vector; simpl.
  split.
  - intros (H1 & H2 & H3).
    apply Rmult_integral in H1. apply Rmult_integral in H2.
    apply Rmult_integral in H3. lra.
  - intros (-> & -> & ->). repeat split; ring.
Qed.

Lemma length_scaled_normalize (v : Vector3) (s : R) :
  length v <> 0 -> 0 <= s -> length (multiplyScalar (normalize v) s) = s.
Proof.
  intros Hv Hs.
  rewrite length_multiplyScalar, (length_normalize v Hv), Rabs_right; lra.
Qed.

Lemma scaled_normalize_origin (v : Vector3) (s : R) :
  length v = 0 -> multiplyScalar (normalize v) s = mkVector3 0 0 0.
Proof.
  intro Hv. apply length_zero_iff in Hv. destruct Hv as (Hx & Hy & Hz).
  destruct v as [vx vy vz]. simpl in *. subst.
  rewrite normalize_origin. unfold multiplyScalar; simpl. f_equal; ring.
Qed.

(** What the flare loop builds for the index [i]. *)
Lemma flare_built (random : nat -> R) (w h : R) (i : nat) :
  (i < 8)%nat ->
  nth_error (flares (init random w h)) i
  = Some (fst (flare random i (9 * i)%nat)).
Proof.
  intro Hi. rewrite init_flares, nth_error_map, nth_error_seq.
  apply Nat.ltb_lt in Hi. rewrite Hi. reflexivity.
Qed.

(** When the random source returns 0.5 three times in a row the vector to
    normalise is the origin, and the control point built from it is the
    origin, of length 0. *)
Lemma flare_control_points_degenerate :
  (forall k : nat, 0 <= (fun _ : nat => 0.5) k < 1) /\
  exists f,
    nth_error (flares (init (fun _ => 0.5) 800 600)) 0 = Some f /\
    flare_curve f = [mkVector3 0 0 0; mkVector3 0 0 0; mkVector3 0 0 0] /\
    map length (flare_curve f) = [0; 0; 0] /\
    ~ Forall2 (fun c (ok : R -> Prop) => ok (length c)) (flare_curve f)
        [(fun l => l = 0); (fun l => l = 1.1); (fun l => 2.5 <= l < 4.0)].
Proof.
  split; [intro; lra |].
  exists (fst (flare (fun _ => 0.5) 0 0%nat)).
  assert (Hc : flare_curve (fst (flare (fun _ => 0.5) 0 0%nat))
               = [mkVector3 0 0 0; mkVector3 0 0 0; mkVector3 0 0 0]).
  { unfold flare_curve. rewrite flare_geometry. simpl.
    unfold flare_waypoint, flare_tip.
    rewrite !scaled_normalize_origin; [reflexivity | |];
      apply flare_vector_origin; auto; lra. }
  split; [apply (flare_built (fun _ => 0.5) 800 600 0); lia |].
  split; [exact Hc |].
  rewrite Hc. simpl. rewrite length_origin. split; [reflexivity |].
  intro H. inversion H as [| c ok cs oks _ H' ]; subst.
  inversion H' as [| c' ok' cs' oks' Hbad _ ]; subst.
  cbv beta in Hbad. rewrite length_origin in Hbad. lra.
Qed.

(** C7, as the code has it.  Whatever the random source returns, eight
    flares are built; the polyline of flare [i] has 51 points, sampled at
    the parameters [d / 50] from a curve with three control points, the
    first of them the origin; its phase is [i * 1.5] and its base scale lies
    in [[1.0, 1.8)].  Up to rounding, the second control point has length
    1.1 and the third a length in [[2.5, 4.0]], when the vector it is
    normalised from is not the origin, that is unless its three draws are
    all 0.5; it is the origin otherwise. *)
Theorem flare_construction (random : nat -> R) (w h : R) (i : nat) :
  (forall k, 0 <= random k < 1) ->
  (i < 8)%nat ->
  List.length (flares (init random w h)) = 8%nat /\
  exists f c1 c2 ud,
    nth_error (flares (init random w h)) i = Some f /\
    geometry f = BufferGeometry (getPoints [mkVector3 0 0 0; c1; c2] 50) /\
    List.length (geometry_points (geometry f)) = 51%nat /\
    Forall (fun p => control p = [mkVector3 0 0 0; c1; c2])
           (geometry_points (geometry f)) /\
    map param (geometry_points (geometry f))
      = map (fun d => INR d / INR 50) (seq 0 51) /\
    (if Req_dec_T (length (flare_vector random (9 * i) 0.8)) 0
     then c1 = mkVector3 0 0 0
     else Rabs (length c1 - 1.1) <= rounding) /\
    (if Req_dec_T (length (flare_vector random (3 + 9 * i) 3)) 0
     then c2 = mkVector3 0 0 0
     else 2.5 - rounding <= length c2 <= 4.0 + rounding) /\
    (length (flare_vector random (9 * i) 0.8) = 0 <->
     random (9 * i)%nat = 0.5 /\ random (1 + 9 * i)%nat = 0.5 /\
     random (2 + 9 * i)%nat = 0.5) /\
    (length (flare_vector random (3 + 9 * i) 3) = 0 <->
     random (3 + 9 * i)%nat = 0.5 /\ random (4 + 9 * i)%nat = 0.5 /\
     random (5 + 9 * i)%nat = 0.5) /\
    userData f = Some ud /\
    phase ud = INR i * 1.5 /\
    1.0 <= baseScale ud < 1.8.
Proof.
  intros Hrand Hi. split.
  { rewrite init_flares, length_map, length_seq. reflexivity. }
  exists (fst (flare random i (9 * i)%nat)),
         (flare_waypoint random (9 * i)), (flare_tip random (9 * i)),
         (mkUserData (INR i * 1.5) (1 + random (9 * i + 8)%nat * 0.8)).
  split; [apply flare_built; exact Hi |].
  split; [apply flare_geometry |].
  rewrite flare_geometry. cbn [geometry_points].
  split; [apply getPoints_length |].
  split; [apply getPoints_control |].
  split; [apply getPoints_param |].
  split.
  { destruct (Req_dec_T _ 0) as [E | E].
    - apply scaled_normalize_origin. exact E.
    - unfold flare_waypoint. rewrite length_scaled_normalize; [| exact E | lra].
      unfold rounding. apply Rabs_le. lra. }
  split.
  { pose proof (Hrand (6 + 9 * i)%nat) as Hr.
    destruct (Req_dec_T _ 0) as [E | E].
    - apply scaled_normalize_origin. exact E.
    - unfold flare_tip. rewrite length_scaled_normalize; [| exact E | lra].
      unfold rounding. lra. }
  split; [apply flare_vector_origin; lra |].
  split; [apply (flare_vector_origin random (3 + 9 * i)); lra |].
  split; [apply flare_userData |].
  split; [reflexivity |].
  cbn [baseScale]. pose proof (Hrand (9 * i + 8)%nat). lra.
Qed.

Lemma flare_construction_witness :
  (forall k : nat, 0 <= (fun _ : nat => 0) k < 1) /\
  (0 < 8)%nat /\
  List.length (flares (init (fun _ => 0) 800 600)) = 8%nat.
Proof.
  assert (H1 : forall k : nat, 0 <= (fun _ : nat => 0) k < 1) by (intro; lra).
  assert (H2 : (0 < 8)%nat) by lia.
  repeat (split; [assumption |]).
  apply (flare_construction (fun _ => 0) 800 600 0 H1 H2).
Defined.

(** ** The constants in binary64 *)

Module Binary64Facts.
Import Floats.

#[local] Set Warnings "-inexact-float".

(** With the rounding of JavaScript numbers the corona opacities are within
    [2^-52] of 0.09, -0.02, -0.13 and -0.24 (the last two are the doubles
    nearest to the decimals, the first two their neighbours), still strictly
    decreasing, and not positive from the second shell on. *)
Lemma binary64_corona_opacities :
  map (fun p => Binary64.close (Binary64.corona_opacity (fst p)) (snd p))
      [(1, 0.09); (2, -0.02); (3, -0.13); (4, -0.24)]%float
  = [true; true; true; true] /\
  map (fun p => (Binary64.corona_opacity (fst p) =? snd p)%float)
      [(1, 0.09); (2, -0.02); (3, -0.13); (4, -0.24)]%float
  = [false; false; true; true] /\
  Binary64.increasing (map Binary64.corona_opacity [4; 3; 2; 1]%float) = true /\
  map (fun i => (Binary64.corona_opacity i <=? 0)%float) [1; 2; 3; 4]%float
  = [false; true; true; true].
Proof. repeat split; vm_compute; reflexivity. Qed.

(** The nesting of the spheres and the order of the layers survive the
    rounding. *)
Lemma binary64_layers :
  Binary64.increasing
    ([Binary64.body_radius; Binary64.wire_radius; Binary64.occlusion_radius]
     ++ map Binary64.corona_radius [1; 2; 3; 4]%float) = true /\
  map Binary64.corona_renderOrder [1; 2; 3; 4]%float = [3; 4; 5; 6]%float /\
  Binary64.increasing (map Binary64.corona_multiplier [4; 3; 2; 1]%float) = true.
Proof. repeat split; vm_compute; reflexivity. Qed.

(** At the two ends of the range of [Math.random()] the base scale stays in
    [[1.0, 1.8)] and the opacity in [[0.7, 1.0)]; the radius of the outer tip
    starts at 2.5 and is rounded to 4.0 at the largest number below 1. *)
Lemma binary64_flare_ranges :
  (Binary64.flare_baseScale 0 =? 1.0)%float = true /\
  (Binary64.flare_baseScale Binary64.last_draw <? 1.8)%float = true /\
  (Binary64.flare_opacity 0 =? 0.7)%float = true /\
  (Binary64.flare_opacity Binary64.last_draw <? 1.0)%float = true /\
  (Binary64.tip_radius 0 =? 2.5)%float = true /\
  (Binary64.tip_radius Binary64.last_draw =? 4.0)%float = true.
Proof. repeat split; vm_compute; reflexivity. Qed.

(** The ends of the pulse and opacity intervals of the tick, reached where
    the sine is 1 or -1. *)
Lemma binary64_tick_ranges :
  (Binary64.pulse 1 =? 1.02)%float = true /\
  (Binary64.pulse (-1) =? 0.98)%float = true /\
  (Binary64.tick_opacity 1 =? 1.0)%float = true /\
  (-0.2 <=? Binary64.tick_opacity (-1))%float = true.
Proof. repeat split; vm_compute; reflexivity. Qed.

(** *** The corona shells as stored *)

(** C1, as the specification words it, does not hold of the numbers the
    program stores: the opacities of the shells 1 and 2 are not the doubles
    0.09 and -0.02, the radius of shell 4 is not the double 1.64, and none
    of the four colour multipliers is the double of its decimal (1.12, 0.84,
    0.56, 0.28). *)
Lemma corona_values_not_the_decimals :
  map (fun p => (Binary64.opacity (fst p) =? snd p)%float)
      (combine Binary64.coronas [0.09; -0.02; -0.13; -0.24]%float)
  = [false; false; true; true] /\
  map (fun p => (Binary64.radius (fst p) =? snd p)%float)
      (combine Binary64.coronas [1.16; 1.32; 1.48; 1.64]%float)
  = [true; true; true; false] /\
  map (fun p => (Binary64.multiplier (fst p) =? snd p)%float)
      (combine Binary64.coronas [1.12; 0.84; 0.56; 0.28]%float)
  = [false; false; false; false].
Proof. repeat split; vm_compute; reflexivity. Qed.

(** C1, as the code has it.  The corona loop runs for [i] from 1 to 4 and
    stops; shell [i] gets the opacity [0.2 - i * 0.11], the radius
    [1.0 + i * 0.16] and the colour multiplier [1.4 - i * 0.28] as binary64
    computes them: opacities 0.09000000000000001, -0.01999999999999999,
    -0.13, -0.24, radii 1.16, 1.32, 1.48, 1.6400000000000001, multipliers
    1.1199999999999999, 0.8399999999999999, 0.5599999999999998,
    0.2799999999999998, each within [2^-52] of the decimal value.  The
    opacities strictly decrease with [i] and those of the shells from the
    second on are not positive. *)
Theorem corona_shells_as_stored :
  (forall n, Binary64.corona_loop (5 + n) 1%float = Binary64.coronas) /\
  Binary64.coronas = map Binary64.corona [1; 2; 3; 4]%float /\
  map Binary64.opacity Binary64.coronas
  = [0.09000000000000001; -0.01999999999999999; -0.13; -0.24]%float /\
  map Binary64.radius Binary64.coronas
  = [1.16; 1.32; 1.48; 1.6400000000000001]%float /\
  map Binary64.multiplier Binary64.coronas
  = [1.1199999999999999; 0.8399999999999999; 0.5599999999999998;
     0.2799999999999998]%float /\
  map (fun p => Binary64.close (Binary64.opacity (fst p)) (snd p))
      (combine Binary64.coronas [0.09; -0.02; -0.13; -0.24]%float)
  = [true; true; true; true] /\
  map (fun p => Binary64.close (Binary64.radius (fst p)) (snd p))
      (combine Binary64.coronas [1.16; 1.32; 1.48; 1.64]%float)
  = [true; true; true; true] /\
  map (fun p => Binary64.close (Binary64.multiplier (fst p)) (snd p))
      (combine Binary64.coronas [1.12; 0.84; 0.56; 0.28]%float)
  = [true; true; true; true] /\
  Binary64.increasing (rev (map Binary64.opacity Binary64.coronas)) = true /\
  map (fun c => (Binary64.opacity c <=? 0)%float) Binary64.coronas
  = [false; true; true; true].
Proof.
  split.
  { intro n. change (5 + n)%nat with (S (S (S (S (S n))))).
    vm_compute. reflexivity. }
  repeat split; vm_compute; reflexivity.
Qed.

(** *** The control points of a flare as stored *)

(** The control points the program stores for three sequences of draws: a
    waypoint of length just below 1.1, a tip of length just below 2.5, and,
    at the largest draw below 1 for the radius, a tip of length exactly
    4. *)
Lemma control_points_as_stored :
  Binary64.vec_length (Binary64.waypoint 0 0 0) = 1.0999999999999999%float /\
  (Binary64.vec_length (Binary64.waypoint 0 0 0) <? 1.1)%float = true /\
  Binary64.vec_length (Binary64.tip 0 0 0.2 0) = 2.4999999999999996%float /\
  (Binary64.vec_length (Binary64.tip 0 0 0.2 0) <? 2.5)%float = true /\
  Binary64.tip 0.75 0.5 0.5 Binary64.last_draw = Binary64.mkVec 4 0 0 /\
  Binary64.vec_length (Binary64.tip 0.75 0.5 0.5 Binary64.last_draw) = 4%float /\
  Binary64.waypoint 0.5 0.5 0.5 = Binary64.mkVec 0 0 0.
Proof. repeat split; vm_compute; reflexivity. Qed.

(** C7, as the specification words it, does not hold.  When the random
    source returns 0.5 three times in a row the vector to normalise is the
    origin and so is the control point built from it, of length 0; and with
    the rounding of JavaScript numbers the lengths are 1.1 and in
    [[2.5, 4.0)] up to rounding only: a waypoint of length
    1.0999999999999999, a tip of length 2.4999999999999996, a tip of length
    exactly 4. *)
Lemma flare_control_points_off :
  ((forall k : nat, 0 <= (fun _ : nat => 0.5) k < 1) /\
   exists f,
     nth_error (flares (init (fun _ => 0.5) 800 600)) 0 = Some f /\
     map length (flare_curve f) = [0; 0; 0]) /\
  Binary64.waypoint 0.5 0.5 0.5 = Binary64.mkVec 0 0 0 /\
  (Binary64.vec_length (Binary64.waypoint 0 0 0) <? 1.1)%float = true /\
  (Binary64.vec_length (Binary64.tip 0 0 0.2 0) <? 2.5)%float = true /\
  (Binary64.vec_length (Binary64.tip 0.75 0.5 0.5 Binary64.last_draw) <? 4)%float
  = false.
Proof.
  split.
  { destruct flare_control_points_degenerate as (H & f & Hn & _ & Hl & _).
    split; [exact H |]. exists f. split; [exact Hn | exact Hl]. }
  repeat split; vm_compute; reflexivity.
Qed.

End Binary64Facts.

(** * Further properties *)

Lemma flares_animate controls_update (t : R) (a : App) :
  flares (animate controls_update t a)
  = map (animate_flare (t * 0.0005)) (flares a).
Proof. reflexivity. Qed.

(** ** The remainder and the sine *)

Lemma sin_period_Z (u : R) (k : Z) : sin (u + 2 * IZR k * PI) = sin u.
Proof.
  destruct (Z_le_gt_dec 0 k) as [Hk | Hk].
  - rewrite <- (Z2Nat.id k Hk), <- INR_IZR_INZ. apply sin_period.
  - assert (Hn : (0 <= - k)%Z) by lia.
    rewrite <- (sin_period (u + 2 * IZR k * PI) (Z.to_nat (- k))).
    rewrite INR_IZR_INZ, (Z2Nat.id _ Hn), opp_IZR.
    f_equal. ring.
Qed.

(** Under a sine with an integer frequency the remainder modulo [2 PI] can
    be dropped. *)
Lemma sin_rem_2PI (a : R) (m : Z) :
  sin (JS.rem a (2 * PI) * IZR m) = sin (a * IZR m).
Proof.
  unfold JS.rem. set (k := JS.trunc (a / (2 * PI))).
  rewrite <- (sin_period_Z (a * IZR m) (- (k * m))).
  f_equal. rewrite opp_IZR, mult_IZR. ring.
Qed.

(** On a dividend that is not positive, [%] lands in [(-b, 0]]. *)
Lemma rem_range_nonpos (a b : R) : a <= 0 -> 0 < b -> - b < JS.rem a b <= 0.
Proof.
  intros Ha Hb. unfold JS.rem, JS.trunc.
  assert (Hab : a = b * (a / b)) by (field; lra).
  destruct (Rle_dec 0 (a / b)) as [Hq | Hq].
  - assert (Hz : a / b = 0).
    { apply Rle_antisym; [| exact Hq].
      apply Rmult_le_reg_l with b; [exact Hb |]. rewrite <- Hab. lra. }
    rewrite Hz.
    rewrite <- (Int_part_spec 0 0) by lra.
    assert (a = 0) by (rewrite Hab, Hz; ring). lra.
  - rewrite opp_IZR.
    destruct (base_Int_part (- (a / b))) as [Hlo Hhi].
    set (q := IZR (Int_part (- (a / b)))) in *.
    assert (b * q <= b * - (a / b)) by (apply Rmult_le_compat_l; lra).
    assert (b * - (a / b) < b * (q + 1)) by (apply Rmult_lt_compat_l; lra).
    split; lra.
Qed.

Lemma rem_range_any (a b : R) : 0 < b -> - b < JS.rem a b < b.
Proof.
  intro Hb. destruct (Rle_dec 0 a) as [Ha | Ha].
  - pose proof (rem_range a b Ha Hb). lra.
  - pose proof (rem_range_nonpos a b ltac:(lra) Hb). lra.
Qed.

(** What the callback writes, with the remainder dropped. *)
Lemma animate_flare_closed_form (time : R) (f : Object3D) (ud : UserData) :
  userData f = Some ud ->
  scale (animate_flare time f)
    = setScalar (Rmax 0 (sin ((time + phase ud) * 2) * 1.5) * baseScale ud) /\
  opacity (material (animate_flare time f))
    = 0.4 + sin ((time + phase ud) * 3) * 0.6.
Proof.
  intro E. destruct (animate_flare_writes time f ud E) as [Hs Ho].
  rewrite Hs, Ho.
  rewrite (sin_rem_2PI (time + phase ud) 2), (sin_rem_2PI (time + phase ud) 3).
  split; reflexivity.
Qed.

(** ** What ticks and resizes keep *)

Lemma animate_flare_fixed (time : R) (f : Object3D) :
  flare_fixed (animate_flare time f) = flare_fixed f.
Proof.
  unfold animate_flare. destruct (userData f) as [ud |] eqn:E; [| reflexivity].
  unfold flare_fixed. simpl. rewrite E. reflexivity.
Qed.

Lemma init_flares_any_window (random : nat -> R) (w h w' h' : R) :
  flares (init random w h) = flares (init random w' h').
Proof. rewrite !init_flares. reflexivity. Qed.

Lemma reachable_fixed random controls_update (a : App) (w h : R) :
  reachable random controls_update a ->
  meshes a = [sunMesh; wireMesh; occlusion] ++ coronas /\
  map flare_fixed (flares a) = map flare_fixed (flares (init random w h)).
Proof.
  induction 1 as [w0 h0 | t a _ [IHm IHf] | w0 h0 a _ IH].
  - split; [reflexivity |].
    rewrite (init_flares_any_window random w0 h0 w h). reflexivity.
  - split; [exact IHm |].
    unfold animate. cbv zeta. cbn [flares].
    rewrite map_map, <- IHf. apply map_ext. apply animate_flare_fixed.
  - exact IH.
Qed.


(** A reading of the fixed part of the flares is the same in two lists with
    the same fixed parts. *)
Lemma fixed_reading {B : Type}
      (g : ObjectType * Geometry * R * option UserData
           * (MaterialType * Color * bool * bool * Blending * Side * bool * bool)
           -> B)
      (l l' : list Object3D) :
  map flare_fixed l = map flare_fixed l' ->
  map (fun f => g (flare_fixed f)) l = map (fun f => g (flare_fixed f)) l'.
Proof.
  intro E. rewrite <- !(map_map flare_fixed g), E. reflexivity.
Qed.



Lemma filter_none {A : Type} (p : A -> bool) (l : list A) :
  Forall (fun u => p u = false) l -> filter p l = [].
Proof.
  induction 1 as [| u l Hu _ IH]; [reflexivity |].
  simpl. rewrite Hu. exact IH.
Qed.

Lemma init_flares_colorWrite (random : nat -> R) (w h : R) :
  map (fun f => colorWrite (material f)) (flares (init random w h))
  = map (fun _ => true) (seq 0 8).
Proof. rewrite init_flares, map_map. reflexivity. Qed.

(** In every state the program reaches exactly one child of the group
    writes no colour, and it is the occlusion shell. *)
Theorem one_occlusion_shell random controls_update (a : App) :
  reachable random controls_update a ->
  depth_only a = [occlusion].
Proof.
  intro Hr. destruct (reachable_fixed _ _ _ 0 0 Hr) as [Hm Hf].
  unfold depth_only, sunGroup_children. rewrite filter_app, Hm.
  assert (Hc : map (fun f => colorWrite (material f)) (flares a)
               = map (fun _ => true) (seq 0 8)).
  { rewrite <- (init_flares_colorWrite random 0 0).
    apply (fixed_reading (fun p => snd (snd p)) _ _ Hf). }
  rewrite (filter_none _ (flares a)).
  - reflexivity.
  - apply Forall_forall. intros f Hin.
    apply (in_map (fun f => colorWrite (material f))) in Hin.
    rewrite Hc in Hin. apply in_map_iff in Hin.
    destruct Hin as (j & Hj & _). rewrite <- Hj. reflexivity.
Qed.

Lemma one_occlusion_shell_witness :
  reachable (fun _ => 0) (fun c => c)
            (animate (fun c => c) 16 (init (fun _ => 0) 800 600)) /\
  depth_only (animate (fun c => c) 16 (init (fun _ => 0) 800 600))
  = [occlusion].
Proof.
  assert (H : reachable (fun _ => 0) (fun c => c)
                (animate (fun c => c) 16 (init (fun _ => 0) 800 600)))
    by (apply reach_animate, reach_init).
  split; [exact H |].
  apply (one_occlusion_shell (fun _ => 0) (fun c => c) _ H).
Defined.

(** ** A tick forgets the ticks before it *)

Lemma animate_flare_absorb (time time' : R) (f : Object3D) :
  animate_flare time (animate_flare time' f) = animate_flare time f.
Proof.
  destruct (userData f) as [ud |] eqn:E; unfold animate_flare.
  - rewrite E. simpl. reflexivity.
  - rewrite E. cbv iota. rewrite E. reflexivity.
Qed.

Lemma animate_absorb controls_update (t t' : R) (a : App) :
  scene_state (animate controls_update t (animate controls_update t' a))
  = scene_state (animate controls_update t a).
Proof.
  unfold scene_state, sunGroup_children. simpl.
  rewrite map_map.
  rewrite (map_ext _ (animate_flare (t * 0.0005))
             (fun f => animate_flare_absorb (t * 0.0005) (t' * 0.0005) f)).
  reflexivity.
Qed.

(** The scene a tick leaves depends on its timestamp and on the numbers
    drawn at construction only: not on the ticks and resizes that came
    before, nor on the size of the window. *)
Theorem tick_is_history_free random controls_update (a : App) (t w h : R) :
  reachable random controls_update a ->
  scene_state (animate controls_update t a)
  = scene_state (animate controls_update t (init random w h)).
Proof.
  induction 1 as [w0 h0 | t' a _ IH | w0 h0 a _ IH].
  - unfold scene_state, sunGroup_children, animate. cbv zeta.
    cbn [sunMat_time sunGroup_scale sunGroup_rotation_y meshes flares].
    rewrite (init_flares_any_window random w0 h0 w h). reflexivity.
  - rewrite animate_absorb. exact IH.
  - exact IH.
Qed.

Lemma tick_is_history_free_witness :
  reachable (fun _ => 0) (fun c => c)
            (on_resize 1920 1080 (animate (fun c => c) 16
                                          (init (fun _ => 0) 800 600))) /\
  scene_state (animate (fun c => c) 33
                 (on_resize 1920 1080 (animate (fun c => c) 16
                                               (init (fun _ => 0) 800 600))))
  = scene_state (animate (fun c => c) 33 (init (fun _ => 0) 800 600)).
Proof.
  assert (H : reachable (fun _ => 0) (fun c => c)
                (on_resize 1920 1080 (animate (fun c => c) 16
                                              (init (fun _ => 0) 800 600))))
    by (apply reach_resize, reach_animate, reach_init).
  split; [exact H |].
  apply (tick_is_history_free (fun _ => 0) (fun c => c) _ 33 800 600 H).
Defined.

(** ** Camera and renderer *)

(** As long as the camera controls leave the aspect ratio and the
    projection alone, in every state the program reaches the aspect ratio of
    the camera is that of the output of the renderer, and the projection is
    the one computed from it. *)
Theorem camera_matches_renderer random controls_update (a : App) :
  (forall c, aspect (controls_update c) = aspect c /\
             projection_aspect (controls_update c) = projection_aspect c) ->
  reachable random controls_update a ->
  aspect (camera a) = width (renderer a) / height (renderer a) /\
  projection_aspect (camera a) = aspect (camera a).
Proof.
  intros Hcu. induction 1 as [w h | t a _ [IHa IHp] | w h a _ _].
  - split; reflexivity.
  - destruct (Hcu (camera a)) as [Ha Hp]. simpl.
    rewrite Ha, Hp. split; assumption.
  - split; reflexivity.
Qed.

Lemma camera_matches_renderer_witness :
  (forall c, aspect ((fun c => c) c) = aspect c /\
             projection_aspect ((fun c => c) c) = projection_aspect c) /\
  reachable (fun _ => 0) (fun c => c)
            (animate (fun c => c) 16
                     (on_resize 1920 1080 (init (fun _ => 0) 800 600))) /\
  aspect (camera (animate (fun c => c) 16
                          (on_resize 1920 1080 (init (fun _ => 0) 800 600))))
  = 1920 / 1080.
Proof.
  assert (H1 : forall c : PerspectiveCamera,
             aspect ((fun c => c) c) = aspect c /\
             projection_aspect ((fun c => c) c) = projection_aspect c)
    by (intro; split; reflexivity).
  assert (H2 : reachable (fun _ => 0) (fun c => c)
                 (animate (fun c => c) 16
                          (on_resize 1920 1080 (init (fun _ => 0) 800 600))))
    by (apply reach_animate, reach_resize, reach_init).
  split; [exact H1 |]. split; [exact H2 |].
  apply (camera_matches_renderer (fun _ => 0) (fun c => c) _ H1 H2).
Defined.

(** ** The transform of the group *)

Lemma pulse_range (u : R) : 0.98 <= 1 + sin u * 0.02 <= 1.02.
Proof. pose proof (SIN_bound u). lra. Qed.

Lemma reachable_group_scale random controls_update (a : App) :
  reachable random controls_update a ->
  0.98 <= x (sunGroup_scale a) <= 1.02.
Proof.
  induction 1 as [w h | t a _ _ | w h a _ IH].
  - simpl. lra.
  - simpl. apply pulse_range.
  - exact IH.
Qed.

(** In every state the program reaches the transform of the group is the
    one of the shader time: rotation [time * 0.3] and uniform scale
    [1 + sin(time * 2) * 0.02], before the first tick as well. *)
Theorem group_in_step_with_shader random controls_update (a : App) :
  reachable random controls_update a ->
  sunGroup_rotation_y a = sunMat_time a * 0.3 /\
  sunGroup_scale a = setScalar (1 + sin (sunMat_time a * 2) * 0.02).
Proof.
  induction 1 as [w h | t a _ _ | w h a _ IH].
  - simpl. split; [lra |].
    replace (0 * 2) with 0 by ring. rewrite sin_0.
    unfold setScalar. f_equal; lra.
  - split; reflexivity.
  - exact IH.
Qed.

Lemma group_in_step_with_shader_witness :
  reachable (fun _ => 0) (fun c => c) (init (fun _ => 0) 800 600) /\
  sunGroup_rotation_y (init (fun _ => 0) 800 600)
  = sunMat_time (init (fun _ => 0) 800 600) * 0.3.
Proof.
  assert (H : reachable (fun _ => 0) (fun c => c) (init (fun _ => 0) 800 600))
    by apply reach_init.
  split; [exact H |].
  apply (group_in_step_with_shader (fun _ => 0) (fun c => c) _ H).
Defined.

Lemma mesh_radii :
  mesh_radius sunMesh = 1.0 /\ mesh_radius wireMesh = 1.012 /\
  mesh_radius occlusion = 1.025.
Proof. unfold mesh_radius; simpl. repeat split; lra. Qed.

(** In every state the program reaches the spheres are strictly nested in
    the scene as well, whatever the pulse: body, wireframe, occlusion shell,
    then every corona shell, all of them within radius 1.6728. *)
Theorem spheres_nested_under_pulse random controls_update (a : App) :
  reachable random controls_update a ->
  0 < world_radius a sunMesh /\
  world_radius a sunMesh < world_radius a wireMesh /\
  world_radius a wireMesh < world_radius a occlusion /\
  Forall (fun c => world_radius a occlusion < world_radius a c
                   /\ world_radius a c <= 1.6728) coronas.
Proof.
  intro Hr. pose proof (reachable_group_scale _ _ _ Hr) as Hp.
  destruct mesh_radii as (Hs & Hw & Ho).
  unfold world_radius. rewrite Hs, Hw, Ho.
  set (p := x (sunGroup_scale a)) in *. clearbody p.
  repeat split; try nra.
  apply Forall_forall. intros c Hc.
  apply (in_map mesh_radius) in Hc. rewrite corona_radii in Hc.
  simpl in Hc. split; nra.
Qed.

Lemma spheres_nested_under_pulse_witness :
  reachable (fun _ => 0) (fun c => c)
            (animate (fun c => c) 16 (init (fun _ => 0) 800 600)) /\
  world_radius (animate (fun c => c) 16 (init (fun _ => 0) 800 600)) sunMesh
  < world_radius (animate (fun c => c) 16 (init (fun _ => 0) 800 600)) wireMesh.
Proof.
  assert (H : reachable (fun _ => 0) (fun c => c)
                (animate (fun c => c) 16 (init (fun _ => 0) 800 600)))
    by (apply reach_animate, reach_init).
  split; [exact H |].
  apply (spheres_nested_under_pulse (fun _ => 0) (fun c => c) _ H).
Defined.

(** ** The flares over time *)

(** For every timestamp, negative ones too, the remainder modulo [2 PI]
    does not show in what the tick writes on a flare: the scale is
    [max(0, sin(2 (time + i * 1.5)) * 1.5) * baseScale] and the opacity
    [0.4 + sin(3 (time + i * 1.5)) * 0.6]. *)
Theorem flare_law_without_remainder random controls_update
        (a : App) (t : R) (i : nat) :
  reachable random controls_update a ->
  (i < 8)%nat ->
  exists f,
    nth_error (flares (animate controls_update t a)) i = Some f /\
    scale f = setScalar (Rmax 0 (sin ((t * 0.0005 + INR i * 1.5) * 2) * 1.5)
                         * (1 + random (9 * i + 8)%nat * 0.8)) /\
    opacity (material f) = 0.4 + sin ((t * 0.0005 + INR i * 1.5) * 3) * 0.6.
Proof.
  intros Hr Hi.
  destruct (reachable_flare _ _ _ i Hr Hi) as (f & Hnth & Hud).
  exists (animate_flare (t * 0.0005) f). split.
  - simpl. apply map_nth_error. exact Hnth.
  - exact (animate_flare_closed_form (t * 0.0005) f _ Hud).
Qed.

Lemma flare_law_without_remainder_witness :
  reachable (fun _ => 0) (fun c => c) (init (fun _ => 0) 800 600) /\
  (3 < 8)%nat /\
  exists f,
    nth_error (flares (animate (fun c => c) (-1000)
                               (init (fun _ => 0) 800 600))) 3 = Some f /\
    opacity (material f) = 0.4 + sin ((-1000 * 0.0005 + INR 3 * 1.5) * 3) * 0.6.
Proof.
  assert (H1 : reachable (fun _ => 0) (fun c => c) (init (fun _ => 0) 800 600))
    by apply reach_init.
  assert (H2 : (3 < 8)%nat) by lia.
  split; [exact H1 |]. split; [exact H2 |].
  destruct (flare_law_without_remainder (fun _ => 0) (fun c => c) _ (-1000) 3
              H1 H2) as (f & Hn & _ & Ho).
  exists f. split; [exact Hn | exact Ho].
Defined.



Lemma grow_bounds (u : R) : 0 <= Rmax 0 (sin u * 1.5) <= 1.5.
Proof.
  pose proof (SIN_bound u). split; [apply Rmax_l | apply Rmax_lub; lra].
Qed.

(** For every timestamp, negative ones too, the phase of a flare lies in
    [(-2 PI, 2 PI)] with the sign of [time + i * 1.5]; the scale written on
    the flare lies in [[0, 2.7)] and the opacity in [[-0.2, 1.0]]. *)
Theorem flare_bounds_any_timestamp random controls_update
        (a : App) (t : R) (i : nat) :
  (forall k, 0 <= random k < 1) ->
  reachable random controls_update a ->
  (i < 8)%nat ->
  let phase_i := JS.rem (t * 0.0005 + INR i * 1.5) (2 * PI) in
  - (2 * PI) < phase_i < 2 * PI /\
  (0 <= t * 0.0005 + INR i * 1.5 -> 0 <= phase_i) /\
  (t * 0.0005 + INR i * 1.5 <= 0 -> phase_i <= 0) /\
  exists f s,
    nth_error (flares (animate controls_update t a)) i = Some f /\
    scale f = setScalar s /\ 0 <= s < 2.7 /\
    -0.2 <= opacity (material f) <= 1.0.
Proof.
  intros Hrand Hr Hi phase_i.
  assert (H2pi : 0 < 2 * PI) by (pose proof PI_RGT_0; lra).
  split; [apply rem_range_any; exact H2pi |].
  split; [intro H; apply rem_range; assumption |].
  split; [intro H; apply rem_range_nonpos; assumption |].
  destruct (reachable_flare _ _ _ i Hr Hi) as (f & Hnth & Hud).
  destruct (animate_flare_closed_form (t * 0.0005) f _ Hud) as [Hs Ho].
  cbn [phase baseScale] in Hs, Ho.
  eexists. eexists. split.
  { simpl. apply map_nth_error. exact Hnth. }
  split; [exact Hs |].
  pose proof (Hrand (9 * i + 8)%nat) as Hb.
  match type of Hs with context [Rmax 0 (sin ?u * 1.5)] =>
    pose proof (grow_bounds u) as Hg;
    set (g := Rmax 0 (sin u * 1.5)) in * end.
  split; [split; nra |].
  rewrite Ho.
  match goal with |- context [sin ?u] => pose proof (SIN_bound u) end. lra.
Qed.

Lemma flare_bounds_any_timestamp_witness :
  (forall k : nat, 0 <= (fun _ : nat => 0) k < 1) /\
  reachable (fun _ => 0) (fun c => c) (init (fun _ => 0) 800 600) /\
  (0 < 8)%nat /\
  JS.rem (-1000 * 0.0005 + INR 0 * 1.5) (2 * PI) <= 0.
Proof.
  assert (H1 : forall k : nat, 0 <= (fun _ : nat => 0) k < 1) by (intro; lra).
  assert (H2 : reachable (fun _ => 0) (fun c => c) (init (fun _ => 0) 800 600))
    by apply reach_init.
  assert (H3 : (0 < 8)%nat) by lia.
  repeat (split; [assumption |]).
  destruct (flare_bounds_any_timestamp (fun _ => 0) (fun c => c) _ (-1000) 0
              H1 H2 H3) as (_ & _ & Hneg & _).
  apply Hneg. simpl. lra.
Defined.

Lemma sin_1_lower : 0.84 <= sin 1.
Proof.
  pose proof PI_lower.
  destruct (SIN 1) as [Hlb _]; [lra | lra |].
  unfold sin_lb, sin_approx, sin_term in Hlb. simpl in Hlb. lra.
Qed.

Lemma sin_4_5_upper : sin 4.5 < -0.84.
Proof.
  pose proof PI_lower. pose proof PI_upper. pose proof sin_1_lower.
  replace 4.5 with (4.5 - PI + PI) by ring. rewrite neg_sin.
  assert (sin 1 < sin (4.5 - PI)) by (apply sin_increasing_1; lra).
  lra.
Qed.

(** Already on the first frame, [animate()] with its default timestamp 0,
    the flare of index 1 is drawn with a positive scale and an opacity below
    zero. *)
Theorem first_frame_negative_opacity random controls_update (a : App) :
  (forall k, 0 <= random k < 1) ->
  reachable random controls_update a ->
  exists f,
    nth_error (flares (animate_first controls_update a)) 1 = Some f /\
    0 < x (scale f) /\
    opacity (material f) < -0.1.
Proof.
  intros Hrand Hr.
  assert (Hi : (1 < 8)%nat) by lia.
  destruct (reachable_flare _ _ _ 1%nat Hr Hi) as (f & Hnth & Hud).
  destruct (animate_flare_closed_form (0 * 0.0005) f _ Hud) as [Hs Ho].
  cbn [phase baseScale] in Hs, Ho.
  exists (animate_flare (0 * 0.0005) f). split.
  { unfold animate_first. rewrite flares_animate.
    apply map_nth_error. exact Hnth. }
  pose proof (Hrand (9 * 1 + 8)%nat) as Hb.
  replace ((0 * 0.0005 + INR 1 * 1.5) * 2) with 3 in Hs by (simpl; lra).
  replace ((0 * 0.0005 + INR 1 * 1.5) * 3) with 4.5 in Ho by (simpl; lra).
  assert (H3 : 0 < sin 3) by (pose proof PI_lower; apply sin_gt_0; lra).
  pose proof sin_4_5_upper.
  split.
  - rewrite Hs. cbn [x setScalar]. rewrite Rmax_right by lra.
    apply Rmult_lt_0_compat; lra.
  - rewrite Ho. lra.
Qed.

Lemma first_frame_negative_opacity_witness :
  (forall k : nat, 0 <= (fun _ : nat => 0) k < 1) /\
  reachable (fun _ => 0) (fun c => c) (init (fun _ => 0) 800 600) /\
  exists f,
    nth_error (flares (animate_first (fun c => c) (init (fun _ => 0) 800 600)))
              1 = Some f /\
    opacity (material f) < -0.1.
Proof.
  assert (H1 : forall k : nat, 0 <= (fun _ : nat => 0) k < 1) by (intro; lra).
  assert (H2 : reachable (fun _ => 0) (fun c => c) (init (fun _ => 0) 800 600))
    by apply reach_init.
  split; [exact H1 |]. split; [exact H2 |].
  destruct (first_frame_negative_opacity (fun _ => 0) (fun c => c) _ H1 H2)
    as (f & Hn & _ & Ho).
  exists f. split; [exact Hn | exact Ho].
Defined.

(** The pulse reaches both ends of its range: from any state the group is
    scaled by exactly 1.02 by the tick at the timestamp [500 PI] and by
    exactly 0.98 by the tick at [1500 PI]. *)
Theorem pulse_extremes_attained controls_update (a : App) :
  sunGroup_scale (animate controls_update (500 * PI) a) = setScalar 1.02 /\
  sunGroup_scale (animate controls_update (1500 * PI) a) = setScalar 0.98.
Proof.
  split.
  - simpl. unfold JS.Math_sin.
    replace (500 * PI * 0.0005 * 2) with (PI / 2) by lra.
    rewrite sin_PI2. unfold setScalar. f_equal; lra.
  - simpl. unfold JS.Math_sin.
    replace (1500 * PI * 0.0005 * 2) with (3 * (PI / 2)) by lra.
    rewrite sin_3PI2. unfold setScalar. f_equal; lra.
Qed.

Lemma INR_below_8 (i : nat) : (i < 8)%nat -> 0 <= INR i <= 7.
Proof.
  intro Hi. split; [apply pos_INR |].
  replace 7 with (INR 7) by (simpl; lra). apply le_INR. lia.
Qed.

(** Every flare reaches both ends of the opacity range at some timestamp
    [>= 0]: opacity exactly 1.0 at the top and, at the bottom, -0.2 up to
    rounding (the sum [0.4 + (-1) * 0.6], which is -0.2 over the reals and
    the next number above it in binary64). *)
Theorem flare_opacity_extremes_attained random controls_update
        (a : App) (i : nat) :
  reachable random controls_update a ->
  (i < 8)%nat ->
  (exists t f, 0 <= t /\
     nth_error (flares (animate controls_update t a)) i = Some f /\
     opacity (material f) = 1.0) /\
  (exists t f, 0 <= t /\
     nth_error (flares (animate controls_update t a)) i = Some f /\
     -0.2 <= opacity (material f) <= -0.2 + rounding).
Proof.
  intros Hr Hi.
  destruct (reachable_flare _ _ _ i Hr Hi) as (f & Hnth & Hud).
  pose proof (INR_below_8 i Hi) as Hb. pose proof PI_lower.
  split.
  - set (t := 2000 * (PI / 6 + 4 * PI - INR i * 1.5)).
    exists t, (animate_flare (t * 0.0005) f).
    split; [unfold t; lra |].
    split; [rewrite flares_animate; apply map_nth_error; exact Hnth |].
    destruct (animate_flare_closed_form (t * 0.0005) f _ Hud) as [_ Ho].
    cbn [phase] in Ho. rewrite Ho.
    replace ((t * 0.0005 + INR i * 1.5) * 3) with (PI / 2 + 2 * 6 * PI)
      by (unfold t; lra).
    rewrite (sin_period_Z (PI / 2) 6), sin_PI2. lra.
  - set (t := 2000 * (PI / 2 + 4 * PI - INR i * 1.5)).
    exists t, (animate_flare (t * 0.0005) f).
    split; [unfold t; lra |].
    split; [rewrite flares_animate; apply map_nth_error; exact Hnth |].
    destruct (animate_flare_closed_form (t * 0.0005) f _ Hud) as [_ Ho].
    cbn [phase] in Ho. rewrite Ho.
    replace ((t * 0.0005 + INR i * 1.5) * 3) with (3 * (PI / 2) + 2 * 6 * PI)
      by (unfold t; lra).
    rewrite (sin_period_Z (3 * (PI / 2)) 6), sin_3PI2. unfold rounding. lra.
Qed.

Lemma flare_opacity_extremes_attained_witness :
  reachable (fun _ => 0) (fun c => c) (init (fun _ => 0) 800 600) /\
  (7 < 8)%nat /\
  exists t f, 0 <= t /\
    nth_error (flares (animate (fun c => c) t (init (fun _ => 0) 800 600))) 7
      = Some f /\
    -0.2 <= opacity (material f) <= -0.2 + rounding.
Proof.
  assert (H1 : reachable (fun _ => 0) (fun c => c) (init (fun _ => 0) 800 600))
    by apply reach_init.
  assert (H2 : (7 < 8)%nat) by lia.
  split; [exact H1 |]. split; [exact H2 |].
  apply (flare_opacity_extremes_attained (fun _ => 0) (fun c => c) _ 7 H1 H2).
Defined.

(** ** The colours of the shader *)

Lemma main_rgb (time : R) (uv : Shader.vec2) :
  Shader.rgb (Shader.main time uv)
  = Shader.mix spotColor baseColor
               (Shader.smoothstep 0.4 0.7 (octave_sum time uv)).
Proof. reflexivity. Qed.

Lemma smoothstep_below (e0 e1 u : R) :
  e0 < e1 -> u <= e0 -> Shader.smoothstep e0 e1 u = 0.
Proof.
  intros He Hu. unfold Shader.smoothstep, Shader.clamp. cbv zeta.
  assert (Hq : (u - e0) / (e1 - e0) <= 0).
  { apply Rmult_le_reg_r with (e1 - e0); [lra |].
    replace ((u - e0) / (e1 - e0) * (e1 - e0)) with (u - e0) by (field; lra).
    lra. }
  rewrite (Rmax_right _ 0 Hq), Rmin_left by lra. ring.
Qed.

Lemma smoothstep_above (e0 e1 u : R) :
  e0 < e1 -> e1 <= u -> Shader.smoothstep e0 e1 u = 1.
Proof.
  intros He Hu. unfold Shader.smoothstep, Shader.clamp. cbv zeta.
  assert (Hq : 1 <= (u - e0) / (e1 - e0)).
  { apply Rmult_le_reg_r with (e1 - e0); [lra |].
    replace ((u - e0) / (e1 - e0) * (e1 - e0)) with (u - e0) by (field; lra).
    lra. }
  rewrite Rmax_left by lra. rewrite Rmin_right by lra. ring.
Qed.

Lemma mix_ends (c d : Vector3) :
  Shader.mix c d 0 = c /\ Shader.mix c d 1 = d.
Proof.
  destruct c as [cx cy cz], d as [dx dy dz].
  unfold Shader.mix; simpl. split; f_equal; ring.
Qed.

Lemma fract_small (u : R) : 0 <= u < 1 -> Shader.fract u = u.
Proof.
  intro H. unfold Shader.fract.
  rewrite <- (Int_part_spec u 0) by lra. lra.
Qed.

(** Every fragment colour lies between the spot colour and the base colour,
    channel by channel: red in [[0.6, 1.0]], green in [[0.3, 0.7]], blue in
    [[0.1, 0.2]]; the sum of the two octaves lies in [[0, 1.5)]. *)
Theorem fragment_color_range (time : R) (uv : Shader.vec2) :
  let c := Shader.rgb (Shader.main time uv) in
  0.6 <= x c <= 1.0 /\ 0.3 <= y c <= 0.7 /\ 0.1 <= z c <= 0.2 /\
  0 <= octave_sum time uv < 1.5.
Proof.
  intro c. unfold c. rewrite main_rgb.
  pose proof (smoothstep_range 0.4 0.7 (octave_sum time uv)) as Hn.
  set (n := Shader.smoothstep 0.4 0.7 (octave_sum time uv)) in *.
  unfold Shader.mix, spotColor, baseColor. cbn [x y z].
  repeat split; try nra.
  - unfold octave_sum.
    repeat match goal with |- context [Shader.noise ?p] =>
      pose proof (noise_range p); generalize dependent (Shader.noise p); intros
    end. lra.
  - unfold octave_sum.
    repeat match goal with |- context [Shader.noise ?p] =>
      pose proof (noise_range p); generalize dependent (Shader.noise p); intros
    end. lra.
Qed.

(** Where the two octaves sum to 0.4 or less the fragment has exactly the
    spot colour. *)
Theorem fragment_spot (time : R) (uv : Shader.vec2) :
  octave_sum time uv <= 0.4 ->
  Shader.main time uv = Shader.mkVec4 spotColor 1.0.
Proof.
  intro H.
  change (Shader.main time uv)
    with (Shader.mkVec4 (Shader.rgb (Shader.main time uv)) 1.0).
  rewrite main_rgb, smoothstep_below by lra.
  rewrite (proj1 (mix_ends _ _)). reflexivity.
Qed.

Lemma octave_sum_origin : octave_sum 0 (0, 0) = 0.
Proof.
  unfold octave_sum, Shader.noise, Shader.dot, Shader.vec2_add_scalar,
    Shader.vec2_scale. cbn [fst snd].
  replace ((0 * 5.0 + 0 * 0.05) * 12.9898 + (0 * 5.0 + 0 * 0.05) * 78.233)
    with 0 by lra.
  replace ((0 * 12.0 + 0 * 0.08) * 12.9898 + (0 * 12.0 + 0 * 0.08) * 78.233)
    with 0 by lra.
  rewrite sin_0. replace (0 * 43758.5453) with 0 by ring.
  rewrite fract_small by lra. ring.
Qed.

Lemma fragment_spot_witness :
  octave_sum 0 (0, 0) <= 0.4 /\
  Shader.main 0 (0, 0) = Shader.mkVec4 spotColor 1.0.
Proof.
  assert (H : octave_sum 0 (0, 0) <= 0.4) by (rewrite octave_sum_origin; lra).
  split; [exact H | apply (fragment_spot 0 (0, 0) H)].
Defined.

(** Where the two octaves sum to 0.7 or more the fragment has exactly the
    base colour. *)
Theorem fragment_base (time : R) (uv : Shader.vec2) :
  0.7 <= octave_sum time uv ->
  Shader.main time uv = Shader.mkVec4 baseColor 1.0.
Proof.
  intro H.
  change (Shader.main time uv)
    with (Shader.mkVec4 (Shader.rgb (Shader.main time uv)) 1.0).
  rewrite main_rgb, smoothstep_above by lra.
  rewrite (proj2 (mix_ends _ _)). reflexivity.
Qed.

(** A point of the surface whose first octave is 0.8. *)
Lemma octave_sum_bright :
  0.8 <= octave_sum 0 (asin (0.8 / 43758.5453) / 64.949, 0).
Proof.
  unfold octave_sum.
  match goal with |- _ <= _ + Shader.noise ?p * 0.5 =>
    pose proof (noise_range p); generalize dependent (Shader.noise p); intros
  end.
  unfold Shader.noise, Shader.dot, Shader.vec2_add_scalar, Shader.vec2_scale.
  cbn [fst snd].
  replace ((asin (0.8 / 43758.5453) / 64.949 * 5.0 + 0 * 0.05) * 12.9898
           + (0 * 5.0 + 0 * 0.05) * 78.233)
    with (asin (0.8 / 43758.5453)) by lra.
  rewrite sin_asin by lra.
  replace (0.8 / 43758.5453 * 43758.5453) with 0.8 by lra.
  rewrite fract_small by lra. lra.
Qed.

Lemma fragment_base_witness :
  0.7 <= octave_sum 0 (asin (0.8 / 43758.5453) / 64.949, 0) /\
  Shader.main 0 (asin (0.8 / 43758.5453) / 64.949, 0)
  = Shader.mkVec4 baseColor 1.0.
Proof.
  assert (H : 0.7 <= octave_sum 0 (asin (0.8 / 43758.5453) / 64.949, 0))
    by (pose proof octave_sum_bright; lra).
  split; [exact H | apply (fragment_base _ _ H)].
Defined.

(** ** The draws of the flare loop *)

(** The flare built after [k] draws, read off the draws [k .. k + 8]. *)
Lemma flare_unfold (random : nat -> R) (i k : nat) :
  fst (flare random i k)
  = mkObject3D Line
      (BufferGeometry
         (getPoints [mkVector3 0 0 0; flare_waypoint random k;
                     flare_tip random k] 50))
      (mkMaterial LineBasicMaterial (Color_of_hex 0xffee99) false true
                  (0.7 + random (7 + k)%nat * 0.3) AdditiveBlending FrontSide
                  true true)
      (setScalar 1) (10 + INR i)
      (Some (mkUserData (INR i * 1.5) (1 + random (8 + k)%nat * 0.8))).
Proof. reflexivity. Qed.

Lemma flare_vector_ext (r1 r2 : nat -> R) (k : nat) (s : R) :
  r1 k = r2 k -> r1 (1 + k)%nat = r2 (1 + k)%nat ->
  r1 (2 + k)%nat = r2 (2 + k)%nat ->
  flare_vector r1 k s = flare_vector r2 k s.
Proof. intros H0 H1 H2. unfold flare_vector. rewrite H0, H1, H2. reflexivity. Qed.

(** Two sequences that agree on the seven draws of the curve give the same
    control points. *)
Lemma flare_curve_ext (r1 r2 : nat -> R) (k : nat) :
  (forall m, (m < 7)%nat -> r1 (m + k)%nat = r2 (m + k)%nat) ->
  flare_waypoint r1 k = flare_waypoint r2 k /\ flare_tip r1 k = flare_tip r2 k.
Proof.
  intro H. unfold flare_waypoint, flare_tip.
  rewrite (flare_vector_ext r1 r2 k 0.8)
    by (try apply (H 0%nat); try apply (H 1%nat); try apply (H 2%nat); lia).
  rewrite (flare_vector_ext r1 r2 (3 + k) 3)
    by (try apply (H 3%nat); try apply (H 4%nat); try apply (H 5%nat); lia).
  rewrite (H 6%nat) by lia. split; reflexivity.
Qed.

Lemma flare_ext (r1 r2 : nat -> R) (i k : nat) :
  (forall m, (m < 9)%nat -> r1 (m + k)%nat = r2 (m + k)%nat) ->
  fst (flare r1 i k) = fst (flare r2 i k).
Proof.
  intro H. rewrite !flare_unfold.
  destruct (flare_curve_ext r1 r2 k) as [Hw Ht]; [intros; apply H; lia |].
  rewrite Hw, Ht, (H 7%nat), (H 8%nat) by lia. reflexivity.
Qed.

(** After a tick the eighth draw of a flare no longer shows. *)
Lemma animated_flare_ext (r1 r2 : nat -> R) (time : R) (i k : nat) :
  (forall m, (m < 9)%nat -> m <> 7%nat -> r1 (m + k)%nat = r2 (m + k)%nat) ->
  animate_flare time (fst (flare r1 i k))
  = animate_flare time (fst (flare r2 i k)).
Proof.
  intro H. rewrite !flare_unfold.
  destruct (flare_curve_ext r1 r2 k) as [Hw Ht]; [intros; apply H; lia |].
  unfold animate_flare.
  cbn [userData otype geometry material renderOrder mtype color wireframe
       transparent blending side depthWrite colorWrite phase baseScale].
  rewrite Hw, Ht, (H 8%nat) by lia. reflexivity.
Qed.

Lemma not_opacity_draw (m j : nat) :
  (m < 9)%nat -> m <> 7%nat -> is_opacity_draw (m + 9 * j) = false.
Proof.
  intros Hm H7. unfold is_opacity_draw.
  rewrite (Nat.mul_comm 9 j), Nat.Div0.mod_add, Nat.mod_small by exact Hm.
  apply Nat.eqb_neq. exact H7.
Qed.

(** The random opacity given to the material of each flare line is written
    over by the first tick: two runs whose random sources differ in those
    draws only show the same scene after any tick. *)
Theorem flare_base_opacity_is_overwritten (r1 r2 : nat -> R)
        controls_update (t w h : R) :
  (forall k, is_opacity_draw k = false -> r1 k = r2 k) ->
  scene_state (animate controls_update t (init r1 w h))
  = scene_state (animate controls_update t (init r2 w h)).
Proof.
  intro H. unfold scene_state, sunGroup_children.
  rewrite !flares_animate, !init_flares, !map_map.
  cbn [animate init sunMat_time sunGroup_scale sunGroup_rotation_y meshes].
  f_equal. f_equal.
  apply map_ext. intro j. apply animated_flare_ext.
  intros m Hm H7. apply H. apply not_opacity_draw; assumption.
Qed.

Lemma flare_base_opacity_is_overwritten_witness :
  (forall k, is_opacity_draw k = false ->
             (fun _ : nat => 0) k
             = (fun k => if is_opacity_draw k then 0.5 else 0) k) /\
  scene_state (animate (fun c => c) 16 (init (fun _ => 0) 800 600))
  = scene_state
      (animate (fun c => c) 16
               (init (fun k => if is_opacity_draw k then 0.5 else 0) 800 600)).
Proof.
  assert (H : forall k, is_opacity_draw k = false ->
                        (fun _ : nat => 0) k
                        = (fun k => if is_opacity_draw k then 0.5 else 0) k)
    by (intros k Hk; cbv beta; rewrite Hk; reflexivity).
  split; [exact H |].
  apply (flare_base_opacity_is_overwritten _ _ (fun c => c) 16 800 600 H).
Defined.

(** The calls to [Math.random()] written in index.js are made 72 times at
    construction, nine times per flare, and the curve, the material and the
    metadata of flare [i] come from the nine numbers returned to its own
    iteration, the draws [9 i .. 9 i + 8] of index.js, alone: two random
    sources that return the same numbers there build the same flare. *)
Theorem flare_draws_are_local (r1 r2 : nat -> R) (w h : R) (i : nat) :
  (i < 8)%nat ->
  (forall m, (m < 9)%nat -> r1 (m + 9 * i)%nat = r2 (m + 9 * i)%nat) ->
  snd (flare_loop r1 flareCount 0 0%nat) = 72%nat /\
  nth_error (flares (init r1 w h)) i = nth_error (flares (init r2 w h)) i.
Proof.
  intros Hi H. split.
  - rewrite flare_loop_unfold. reflexivity.
  - rewrite !flare_built by exact Hi. f_equal. apply flare_ext. exact H.
Qed.

Lemma flare_draws_are_local_witness :
  (2 < 8)%nat /\
  (forall m, (m < 9)%nat ->
             (fun _ : nat => 0) (m + 9 * 2)%nat
             = (fun k => if (k <? 18)%nat then 0.25 else 0) (m + 9 * 2)%nat) /\
  nth_error (flares (init (fun _ => 0) 800 600)) 2
  = nth_error
      (flares (init (fun k => if (k <? 18)%nat then 0.25 else 0) 800 600)) 2.
Proof.
  assert (H1 : (2 < 8)%nat) by lia.
  assert (H2 : forall m, (m < 9)%nat ->
                 (fun _ : nat => 0) (m + 9 * 2)%nat
                 = (fun k => if (k <? 18)%nat then 0.25 else 0) (m + 9 * 2)%nat).
  { intros m _. cbv beta.
    destruct (Nat.ltb_spec (m + 9 * 2) 18) as [Hlt | _]; [lia | reflexivity]. }
  split; [exact H1 |]. split; [exact H2 |].
  apply (flare_draws_are_local _ _ 800 600 2 H1 H2).
Defined.
